(** * Fingerprint-matching pipeline ([python_lesson1/main.py])

    A shallow embedding of the matching pipeline: manifest reading, image
    location, template extraction through the external [mindtct] executable,
    sampling, scoring through the external [bozorth3] executable, and the
    per-group persistence into [scores.db].

    Python strings are [string]; Python integers are [Z]; Python floats are
    the kernel's binary64 floats.  Code that touches the file system, runs an
    external executable, draws random numbers or talks to the database is
    written in a state-and-exception monad over an explicit [World]; what the
    outside world does (the executables, failing writes, the random source) is
    an explicit [Env]. *)

From Stdlib Require Import List String Ascii ZArith Bool Lia Arith.
From Stdlib Require Import Permutation DecimalString Floats Uint63.
From Stdlib Require DecimalNat.
Import ListNotations.

Local Open Scope string_scope.
Local Open Scope Z_scope.

(* ================================================================= *)
(** ** Python string primitives *)

Module PyStr.

Definition LF : ascii := ascii_of_nat 10.
Definition nl : string := String LF EmptyString.

(** [str.isspace] for one character of a byte string in the C locale:
    the six characters of [string.whitespace]. *)
Definition is_space (c : ascii) : bool :=
  let n := nat_of_ascii c in
  ((9 <=? n)%nat && (n <=? 13)%nat) || (n =? 32)%nat.

Definition is_empty (s : string) : bool :=
  match s with EmptyString => true | String _ _ => false end.

Fixpoint lstrip (s : string) : string :=
  match s with
  | EmptyString => EmptyString
  | String c r => if is_space c then lstrip r else s
  end.

Fixpoint rstrip (s : string) : string :=
  match s with
  | EmptyString => EmptyString
  | String c r =>
      let r' := rstrip r in
      if is_space c && is_empty r' then EmptyString else String c r'
  end.

(** [s.strip()] *)
Definition strip (s : string) : string := rstrip (lstrip s).

(** [s.split()]: the maximal runs of non-whitespace characters. [cur] is
    the token being read. *)
Fixpoint split_ws_aux (cur : string) (s : string) : list string :=
  match s with
  | EmptyString => if is_empty cur then [] else [cur]
  | String c r =>
      if is_space c
      then (if is_empty cur then split_ws_aux EmptyString r
            else cur :: split_ws_aux EmptyString r)
      else split_ws_aux (cur ++ String c EmptyString) r
  end.

Definition split_ws (s : string) : list string := split_ws_aux EmptyString s.

(** [s.split(sep)] for a one-character separator: never the empty list. *)
Fixpoint split_on (sep : ascii) (s : string) : list string :=
  match s with
  | EmptyString => [EmptyString]
  | String c r =>
      if Ascii.eqb c sep then EmptyString :: split_on sep r
      else match split_on sep r with
           | h :: t => String c h :: t
           | [] => [String c EmptyString]
           end
  end.

Definition is_digit (c : ascii) : bool :=
  let n := nat_of_ascii c in (48 <=? n)%nat && (n <=? 57)%nat.

Definition digit_val (c : ascii) : Z := Z.of_nat (nat_of_ascii c) - 48.

(** The value of a non-empty run of decimal digits, [acc] being the value
    read so far. *)
Fixpoint digits_val (acc : Z) (s : string) : option Z :=
  match s with
  | EmptyString => Some acc
  | String c r => if is_digit c then digits_val (10 * acc + digit_val c) r else None
  end.

Definition unsigned_val (s : string) : option Z :=
  match s with
  | EmptyString => None
  | String _ _ => digits_val 0 s
  end.

(** [int(s)] for a string: a decimal number, possibly signed, possibly
    embedded in whitespace; [None] is [ValueError]. *)
Definition int_of_str (s : string) : option Z :=
  match strip s with
  | String "-" r => option_map Z.opp (unsigned_val r)
  | String "+" r => unsigned_val r
  | t => unsigned_val t
  end.

(** [s.rfind(c)]: the index of the last [c], or [-1]. *)
Fixpoint rfind_from (c : ascii) (s : string) (i : Z) (last : Z) : Z :=
  match s with
  | EmptyString => last
  | String x r => rfind_from c r (i + 1) (if Ascii.eqb x c then i else last)
  end.

Definition rfind (c : ascii) (s : string) : Z := rfind_from c s 0 (-1).

(** [s[:n]] and [s[n:]] for [0 <= n]. *)
Fixpoint take (n : nat) (s : string) : string :=
  match n, s with
  | S k, String c r => String c (take k r)
  | _, _ => EmptyString
  end.

Fixpoint drop (n : nat) (s : string) : string :=
  match n, s with
  | S k, String _ r => drop k r
  | _, _ => s
  end.

Definition startswith (pre s : string) : bool := String.prefix pre s.

Fixpoint endswith_char (c : ascii) (s : string) : bool :=
  match s with
  | EmptyString => false
  | String x EmptyString => Ascii.eqb x c
  | String _ r => endswith_char c r
  end.

(** ['%d' % n] for a natural number. *)
Definition of_nat (n : nat) : string := NilEmpty.string_of_uint (Nat.to_uint n).

(** ASCII lower-casing, used to speak about case variants. *)
Definition lower_char (c : ascii) : ascii :=
  let n := nat_of_ascii c in
  if (65 <=? n)%nat && (n <=? 90)%nat then ascii_of_nat (n + 32) else c.

Fixpoint lower (s : string) : string :=
  match s with
  | EmptyString => EmptyString
  | String c r => String (lower_char c) (lower r)
  end.

End PyStr.

(* ================================================================= *)
(** ** [os.path] on POSIX *)

Module PosixPath.
Import PyStr.

(** The [while] loop of [genericpath._splitext]: look for a character
    other than the dot in [p[filenameIndex:dotIndex]]. [fuel] is the number
    of iterations left, at most [dotIndex - filenameIndex]. *)
Fixpoint splitext_loop (p : string) (filenameIndex dotIndex : Z) (fuel : nat)
  : option (string * string) :=
  match fuel with
  | O => None
  | S fuel' =>
      if filenameIndex <? dotIndex then
        match String.get (Z.to_nat filenameIndex) p with
        | Some c =>
            if negb (Ascii.eqb c ".")
            then Some (take (Z.to_nat dotIndex) p, drop (Z.to_nat dotIndex) p)
            else splitext_loop p (filenameIndex + 1) dotIndex fuel'
        | None => None
        end
      else None
  end.

(** [os.path.splitext(p)] *)
Definition splitext (p : string) : string * string :=
  let sepIndex := rfind "/" p in
  let dotIndex := rfind "." p in
  if dotIndex >? sepIndex then
    let filenameIndex := sepIndex + 1 in
    match splitext_loop p filenameIndex dotIndex (Z.to_nat (dotIndex - filenameIndex)) with
    | Some r => r
    | None => (p, EmptyString)
    end
  else (p, EmptyString).

(** [os.path.join(a, b)] *)
Definition join (a b : string) : string :=
  if startswith "/" b then b
  else if is_empty a || endswith_char "/" a then a ++ b
  else a ++ "/" ++ b.

End PosixPath.

Import PyStr PosixPath.

(* ================================================================= *)
(** ** Exceptions and results *)

Inductive exn : Type :=
| IOError (path : string)
| OSError (what : string)
| CalledProcessError (returncode : Z) (cmd : list string)
| ValueError (msg : string)
| NameError (msg : string)
| AttributeError (msg : string)
| IndexError
| TypeError (msg : string)
| OverflowError
| OperationalError (msg : string)
| ProgrammingError (msg : string).

Inductive result (A : Type) : Type :=
| Ok (a : A)
| Raise (e : exn).

Arguments Ok {A} a.
Arguments Raise {A} e.

Definition is_ok {A} (r : result A) : bool :=
  match r with Ok _ => true | Raise _ => false end.

(* ================================================================= *)
(** ** Data model (the [attr.s] classes) *)

Record Checksum : Type := { cs_value : string; cs_kind : string }.
Record Path : Type := { p_checksum : Checksum; p_filepath : string }.
Record image : Type := { img_id : string; img_path : Path }.
(** [mindtct.image] holds the image id, not the image. *)
Record mindtct : Type := { m_image : string; m_xyt : string }.
Record bozorth3 : Type := { b_probe : string; b_gallery : string; b_score : Z }.

(** ['md5 sha1 sha224 sha256 sha384 sha512'.split()] *)
Definition Checksum_kinds : list string :=
  split_ws "md5 sha1 sha224 sha256 sha384 sha512".

Definition str_in (v : string) (l : list string) : bool := existsb (String.eqb v) l.

(** The validator of [Checksum.kind]: [lambda o, a, v: v in ...]; it
    evaluates the membership test and returns it. *)
Definition kind_validator (o : Checksum) (a : string) (v : string) : result bool :=
  Ok (str_in v Checksum_kinds).

(** The [__init__] that [attr.s] generates: the attributes are assigned,
    then each validator is called with the instance, the attribute and the
    value.  A validator rejects a value by raising; what it returns is not
    looked at. *)
Definition new_Checksum (value kind : string) : result Checksum :=
  let self := {| cs_value := value; cs_kind := kind |} in
  match kind_validator self "kind" kind with
  | Ok _ => Ok self
  | Raise e => Raise e
  end.

(** [bozorth3.sql_insert_values] *)
Definition row : Type := (string * string * Z)%type.
Definition sql_insert_values (self : bozorth3) : row :=
  (b_probe self, b_gallery self, b_score self).

(** Values a [bozorth3_input.gallery] can hold at run time. *)
#[warnings="-register-all"] Inductive pyval : Type :=
| PNone
| PInt (z : Z)
| PStr (s : string)
| PMindtct (m : mindtct)
| PList (l : list pyval)
| PTuple (l : list pyval).

(** [str(type(v))] *)
Definition type_repr (v : pyval) : string :=
  match v with
  | PNone => "<type 'NoneType'>"
  | PInt _ => "<type 'int'>"
  | PStr _ => "<type 'str'>"
  | PMindtct _ => "<class '__main__.mindtct'>"
  | PList _ => "<type 'list'>"
  | PTuple _ => "<type 'tuple'>"
  end.

Record bozorth3_input : Type := { in_probe : mindtct; in_gallery : pyval }.

(* ================================================================= *)
(** ** The world: file system, random source, database *)

Definition files : Type := list (string * string).

Fixpoint lookup_file (p : string) (fs : files) : option string :=
  match fs with
  | [] => None
  | (q, c) :: r => if String.eqb p q then Some c else lookup_file p r
  end.

Definition store_file (p c : string) (fs : files) : files :=
  (p, c) :: filter (fun e => negb (String.eqb p (fst e))) fs.

(** [under d p]: the path [p] lies inside the directory [d]. *)
Definition under (d p : string) : bool := String.prefix (d ++ "/") p.

(** [scores.db]: the rows that are committed, and the rows of the open
    transaction. *)
Record DB : Type := {
  db_has_table : bool;
  db_durable : list row;
  db_pending : list row
}.

Record World : Type := {
  w_dirs : list string;       (* the directories that exist *)
  w_files : files;            (* the regular files and their contents *)
  w_tmp : nat;                (* names handed out by [mkdtemp] so far *)
  w_rng : nat;                (* random numbers drawn so far *)
  w_db : DB;
  w_printed : list bozorth3   (* what [map(print, group)] has written *)
}.

Definition set_dirs (d : list string) (w : World) : World :=
  {| w_dirs := d; w_files := w_files w; w_tmp := w_tmp w; w_rng := w_rng w;
     w_db := w_db w; w_printed := w_printed w |}.
Definition set_files (f : files) (w : World) : World :=
  {| w_dirs := w_dirs w; w_files := f; w_tmp := w_tmp w; w_rng := w_rng w;
     w_db := w_db w; w_printed := w_printed w |}.
Definition set_tmp (n : nat) (w : World) : World :=
  {| w_dirs := w_dirs w; w_files := w_files w; w_tmp := n; w_rng := w_rng w;
     w_db := w_db w; w_printed := w_printed w |}.
Definition set_rng (n : nat) (w : World) : World :=
  {| w_dirs := w_dirs w; w_files := w_files w; w_tmp := w_tmp w; w_rng := n;
     w_db := w_db w; w_printed := w_printed w |}.
Definition set_db (d : DB) (w : World) : World :=
  {| w_dirs := w_dirs w; w_files := w_files w; w_tmp := w_tmp w; w_rng := w_rng w;
     w_db := d; w_printed := w_printed w |}.
Definition set_printed (p : list bozorth3) (w : World) : World :=
  {| w_dirs := w_dirs w; w_files := w_files w; w_tmp := w_tmp w; w_rng := w_rng w;
     w_db := w_db w; w_printed := p |}.

(** What a spawned executable did. *)
Inductive proc : Type :=
| CannotExec
| Exited (returncode : Z) (stdout : string).

(** The outside world.  [exec cmd fs] runs an external command on the files
    [fs]; [write_fails p] tells whether opening [p] for writing fails (full
    disk, quota, permissions); [abspath] is [os.path.abspath] for the current
    directory; [draw c m] is the value of [int(random() * m)] at the [c]-th
    call of [random()]. *)
Record Env : Type := {
  exec : list string -> files -> proc * files;
  write_fails : string -> bool;
  abspath : string -> string;
  draw : nat -> nat -> nat
}.

(** The monad of the effectful code: state passing over [World], with
    exceptions. *)
Definition M (A : Type) : Type := World -> result A * World.

Definition ret {A} (a : A) : M A := fun w => (Ok a, w).
Definition raise {A} (e : exn) : M A := fun w => (Raise e, w).
Definition bind {A B} (c : M A) (k : A -> M B) : M B :=
  fun w => match c w with
           | (Ok a, w') => k a w'
           | (Raise e, w') => (Raise e, w')
           end.

(** [try: body finally: fin].  The [finally] block runs on every way out of
    [body]; an exception of its own replaces the outcome of [body]. *)
Definition try_finally {A} (body : M A) (fin : M unit) : M A :=
  fun w => let (r, w1) := body w in
           match fin w1 with
           | (Ok _, w2) => (r, w2)
           | (Raise e, w2) => (Raise e, w2)
           end.

Declare Scope py_scope.
Delimit Scope py_scope with py.
Notation "x <- c ;; k" := (bind c (fun x => k))
  (at level 61, c at next level, right associativity) : py_scope.
Notation "c ;;; k" := (bind c (fun _ => k))
  (at level 61, right associativity) : py_scope.
Local Open Scope py_scope.

Fixpoint mapM {A B} (f : A -> M B) (l : list A) : M (list B) :=
  match l with
  | [] => ret []
  | x :: r => y <- f x ;; ys <- mapM f r ;; ret (y :: ys)
  end.

(** [multiprocessing.Pool().map(f, l)]: the results in the order of [l].
    The tasks share nothing, so for a batch that returns the workers'
    interleaving does not matter, and the tasks are run here one after the
    other.  A batch that fails is modelled only as far as this: it raises.
    The real pool re-raises the first failure to arrive while the other tasks
    are still running, and the dying script terminates those workers without
    their [finally] blocks; here the first failure in the order of [l] is
    raised and no later task runs.  So nothing is to be read off this
    definition about which exception a failed batch raises when several tasks
    fail differently, nor about the files and directories it leaves. *)
Definition pool_map {A B} (f : A -> M B) (l : list A) : M (list B) := mapM f l.

Section FileSystem.
Context (env : Env).

(** [tempfile.mkdtemp()] *)
Definition mkdtemp : M string :=
  fun w => let d := "/tmp/tmp" ++ of_nat (w_tmp w) in
           (Ok d, set_tmp (S (w_tmp w)) (set_dirs (d :: w_dirs w) w)).

(** [with open(p, 'wb') as fd: fd.write(c)] *)
Definition write_file (p c : string) : M unit :=
  fun w => if write_fails env p then (Raise (IOError p), w)
           else (Ok tt, set_files (store_file p c (w_files w)) w).

(** [with open(p) as fd: fd.read()] *)
Definition read_file (p : string) : M string :=
  fun w => match lookup_file p (w_files w) with
           | Some c => (Ok c, w)
           | None => (Raise (IOError p), w)
           end.

Definition spawn (cmd : list string) : M (Z * string) :=
  fun w => match exec env cmd (w_files w) with
           | (CannotExec, _) => (Raise (OSError "No such file or directory"), w)
           | (Exited code out, fs) => (Ok (code, out), set_files fs w)
           end.

(** [subprocess.check_call(cmd)] *)
Definition check_call (cmd : list string) : M unit :=
  r <- spawn cmd ;;
  if fst r =? 0 then ret tt else raise (CalledProcessError (fst r) cmd).

(** [subprocess.check_output(cmd)] *)
Definition check_output (cmd : list string) : M string :=
  r <- spawn cmd ;;
  if fst r =? 0 then ret (snd r) else raise (CalledProcessError (fst r) cmd).

(** [shutil.rmtree(d)]: the directory and everything under it. *)
Definition rmtree (d : string) : M unit :=
  fun w => if str_in d (w_dirs w)
           then (Ok tt,
                 set_files (filter (fun e => negb (under d (fst e))) (w_files w))
                   (set_dirs (filter (fun x => negb (String.eqb d x)) (w_dirs w)) w))
           else (Raise (OSError "No such file or directory"), w).

End FileSystem.

(* ================================================================= *)
(** ** Manifest reader and image locator *)

(** What iterating over an open text file yields: the lines, each with its
    line feed; a last line without one is yielded as it is. *)
Fixpoint file_lines_aux (cur : string) (s : string) : list string :=
  match s with
  | EmptyString => if is_empty cur then [] else [cur]
  | String c r =>
      if Ascii.eqb c LF then (cur ++ nl) :: file_lines_aux EmptyString r
      else file_lines_aux (cur ++ String c EmptyString) r
  end.

Definition file_lines (content : string) : list string :=
  file_lines_aux EmptyString content.

(** The body of the [for] loop of [locate_paths] over the lines of the
    manifest.  [md5sum, path = parts] is reached with two parts only. *)
Fixpoint locate_paths_lines (prefix : string) (lines : list string)
  : result (list Path) :=
  match lines with
  | [] => Ok []
  | l :: rest =>
      let line := strip l in
      let parts := split_ws line in
      match parts with
      | [md5sum; path] =>
          match new_Checksum md5sum "md5" with
          | Raise e => Raise e
          | Ok chksum =>
              let filepath := join prefix path in
              match locate_paths_lines prefix rest with
              | Raise e => Raise e
              | Ok ps => Ok ({| p_checksum := chksum; p_filepath := filepath |} :: ps)
              end
          end
      | _ => locate_paths_lines prefix rest
      end
  end.

Definition locate_paths (path_md5list prefix : string) : M (list Path) :=
  (content <- read_file path_md5list ;;
   match locate_paths_lines prefix (file_lines content) with
   | Ok ps => ret ps
   | Raise e => raise e
   end)%py.

(** The inner [predicate] of [locate_images]. *)
Definition predicate (path : Path) : bool :=
  let ext := snd (splitext (p_filepath path)) in
  str_in ext [".png"].

Fixpoint locate_images (paths : list Path) : list image :=
  match paths with
  | [] => []
  | path :: rest =>
      if predicate path
      then {| img_id := cs_value (p_checksum path); img_path := path |}
             :: locate_images rest
      else locate_images rest
  end.

(* ================================================================= *)
(** ** Template extractor and matcher *)

(** What [run] returns: one result for a pairwise request, a list of
    results for a one-to-many request. *)
Inductive matched : Type :=
| One (b : bozorth3)
| Many (l : list bozorth3).

Definition int_error (s : string) : exn :=
  ValueError ("invalid literal for int() with base 10: '" ++ s ++ "'").

(** [map(int, l)] *)
Fixpoint map_int (l : list string) : result (list Z) :=
  match l with
  | [] => Ok []
  | s :: r =>
      match int_of_str s with
      | None => Raise (int_error s)
      | Some z => match map_int r with
                  | Ok zs => Ok (z :: zs)
                  | Raise e => Raise e
                  end
      end
  end.

Definition no_attribute (v : pyval) (a : string) : exn :=
  AttributeError (type_repr v ++ " object has no attribute '" ++ a ++ "'").

(** [v.image] *)
Definition attr_image (v : pyval) : result string :=
  match v with
  | PMindtct m => Ok (m_image m)
  | _ => Raise (no_attribute v "image")
  end.

(** The list comprehension of [bozorth3_from_one_to_many] over
    [zip(scores, galleryset)]. *)
Fixpoint zip_results (probe : mindtct) (scores : list Z) (galleryset : list pyval)
  : result (list bozorth3) :=
  match scores, galleryset with
  | score :: ss, gallery :: gs =>
      match attr_image gallery with
      | Raise e => Raise e
      | Ok gid =>
          match zip_results probe ss gs with
          | Raise e => Raise e
          | Ok bs => Ok ({| b_probe := m_image probe; b_gallery := gid; b_score := score |} :: bs)
          end
      end
  | _, _ => Ok []
  end.

Section Stages.
Context (env : Env).

Definition mindtct_from_image (img : image) : M mindtct :=
  let imgpath := abspath env (p_filepath (img_path img)) in
  tempdir <- mkdtemp ;;
  let oroot := join tempdir "result" in
  let cmd := ["mindtct"; imgpath; oroot] in
  try_finally
    (check_call env cmd ;;;
     xyt <- read_file (oroot ++ ".xyt") ;;
     ret {| m_image := img_id img; m_xyt := xyt |})
    (rmtree tempdir).

Definition bozorth3_from_group (probe gallery : mindtct) : M bozorth3 :=
  tempdir <- mkdtemp ;;
  let probeFile := join tempdir "probe.xyt" in
  let galleryFile := join tempdir "gallery.xyt" in
  write_file env probeFile (m_xyt probe) ;;;
  write_file env galleryFile (m_xyt gallery) ;;;
  let cmd := ["bozorth3"; probeFile; galleryFile] in
  try_finally
    (result <- check_output env cmd ;;
     match int_of_str (strip result) with
     | Some score =>
         ret {| b_probe := m_image probe; b_gallery := m_image gallery; b_score := score |}
     | None => raise (int_error (strip result))
     end)
    (rmtree tempdir).

(** [with open(p, 'wb') as fd: fd.write(v.xyt)]: the file is opened
    (and so created) before the attribute is looked up. *)
Definition write_xyt (p : string) (v : pyval) : M unit :=
  match v with
  | PMindtct m => write_file env p (m_xyt m)
  | _ => write_file env p EmptyString ;;; raise (no_attribute v "xyt")
  end.

(** The [for] loop over [izip(galleryFiles, galleryset)]. *)
Fixpoint write_galleries (galleryFiles : list string) (galleryset : list pyval)
  : M unit :=
  match galleryFiles, galleryset with
  | galleryFile :: fs, gallery :: gs =>
      write_xyt galleryFile gallery ;;; write_galleries fs gs
  | _, _ => ret tt
  end.

Definition bozorth3_from_one_to_many (probe : mindtct) (galleryset : list pyval)
  : M (list bozorth3) :=
  tempdir <- mkdtemp ;;
  let probeFile := join tempdir "probe.xyt" in
  let galleryFiles :=
    map (fun i => join tempdir ("gallery" ++ of_nat i ++ ".xyt"))
        (seq 0 (List.length galleryset)) in
  write_file env probeFile (m_xyt probe) ;;;
  write_galleries galleryFiles galleryset ;;;
  let cmd := "bozorth3" :: "-p" :: probeFile :: galleryFiles in
  try_finally
    (out <- check_output env cmd ;;
     let result := strip out in
     match map_int (split_on LF result) with
     | Raise e => raise e
     | Ok scores =>
         match zip_results probe scores galleryset with
         | Raise e => raise e
         | Ok bs => ret bs
         end
     end)
    (rmtree tempdir).

(** [bozorth3_input.run].  The [else] branch formats [type(gallery)], and
    [gallery] there is not [self.gallery] but the module's global of that
    name: [global_gallery] is its value, [None] when the module has no such
    global (as in a module that is imported, or in a pool worker forked
    before the script assigns it). *)
Definition run (global_gallery : option pyval) (self : bozorth3_input) : M matched :=
  match in_gallery self with
  | PMindtct g => b <- bozorth3_from_group (in_probe self) g ;; ret (One b)
  | PList l => bs <- bozorth3_from_one_to_many (in_probe self) l ;; ret (Many bs)
  | _ =>
      match global_gallery with
      | None => raise (NameError "global name 'gallery' is not defined")
      | Some gallery =>
          raise (ValueError ("Unhandled type for gallery: " ++ type_repr gallery))
      end
  end.

Definition run_bozorth3 (global_gallery : option pyval) (input : bozorth3_input)
  : M matched :=
  run global_gallery input.

End Stages.

(* ================================================================= *)
(** ** Sampler *)

(** [float(n)] for a length [n]. *)
Definition float_of_int (n : Z) : float := PrimFloat.of_uint63 (Uint63.of_Z n).

(** [int(f)]: truncation towards zero. *)
Definition int_of_float (f : float) : result Z :=
  match Prim2SF f with
  | S754_zero _ => Ok 0
  | S754_finite s m e =>
      let mag := if 0 <=? e then Z.pos m * 2 ^ e else Z.pos m / 2 ^ (- e) in
      Ok (if s then - mag else mag)
  | S754_infinity _ => Raise OverflowError
  | S754_nan => Raise (ValueError "cannot convert float NaN to integer")
  end.

(** [int(perc * len(mindtcts))]: the product is the binary64 product. *)
Definition sample_size (perc : float) (n : nat) : result Z :=
  int_of_float (PrimFloat.mul perc (float_of_int (Z.of_nat n))).

(** [l[j] = v] *)
Fixpoint set_nth {A} (j : nat) (v : A) (l : list A) : list A :=
  match l, j with
  | [], _ => []
  | _ :: r, O => v :: r
  | x :: r, S j' => x :: set_nth j' v r
  end.

Section Sampler.
Context (env : Env) {A : Type}.

(** [int(random() * m)] *)
Definition random_below (m : nat) : M nat :=
  fun w => (Ok (draw env (w_rng w) m), set_rng (S (w_rng w)) w).

(** The selection loop of [random.sample] over a copy of the
    population: [j = int(random() * (n-i)); result[i] = pool[j];
    pool[j] = pool[n-i-1]].  The list [pool] here is the part
    [pool[0:n-i]] that is still selectable, so [n-i] is its length.
    For a small sample of a large population the library instead draws
    indices and rejects those already chosen; both loops return the
    elements at [k] distinct positions, and this one is the one written
    out. *)
Fixpoint sample_loop (pool : list A) (k : nat) : M (list A) :=
  match k with
  | O => ret []
  | S k' =>
      j <- random_below (List.length pool) ;;
      match nth_error pool j with
      | None => raise IndexError
      | Some x =>
          let pool' := removelast (set_nth j (last pool x) pool) in
          rest <- sample_loop pool' k' ;;
          ret (x :: rest)
      end
  end.

(** [random.sample(population, k)] *)
Definition random_sample (population : list A) (k : Z) : M (list A) :=
  if (0 <=? k) && (k <=? Z.of_nat (List.length population))
  then sample_loop population (Z.to_nat k)
  else raise (ValueError "sample larger than population").

End Sampler.

(* ================================================================= *)
(** ** Result store *)

Definition set_pending (p : list row) (db : DB) : DB :=
  {| db_has_table := db_has_table db; db_durable := db_durable db; db_pending := p |}.

(** [sqlite3.connect('scores.db')]: a new connection has no open
    transaction. *)
Definition sqlite3_connect : M unit :=
  fun w => (Ok tt, set_db (set_pending [] (w_db w)) w).

(** [cursor.execute(bozorth3.sql_stmt_create_table())] *)
Definition create_table : M unit :=
  fun w => let db := w_db w in
           (Ok tt, set_db {| db_has_table := true;
                             db_durable := db_durable db ++ db_pending db;
                             db_pending := [] |} w).

(** The scan [sqlite3] makes of a byte string it is to bind, with the
    connection's default [text_factory]: it looks for a character with the
    high bit set, up to the first NUL. *)
Fixpoint eight_bit (s : string) : bool :=
  match s with
  | EmptyString => false
  | String c r =>
      let n := nat_of_ascii c in
      if (n =? 0)%nat then false else (128 <=? n)%nat || eight_bit r
  end.

(** An integer that SQLite can hold: a signed 64-bit one. *)
Definition fits_int64 (z : Z) : bool := (- 2 ^ 63 <=? z) && (z <? 2 ^ 63).

Definition eight_bit_error : exn :=
  ProgrammingError
    ("You must not use 8-bit bytestrings unless you use a text_factory that " ++
     "can interpret 8-bit bytestrings (like text_factory = str). It is highly " ++
     "recommended that you instead just switch your application to Unicode strings.").

(** Binding one row to the three placeholders of the prepared statement,
    in their order: a byte string with a character above 127 is refused with
    [ProgrammingError], an integer outside the signed 64-bit range with
    [OverflowError]. *)
Definition bind_row (r : row) : result unit :=
  let '(probe, gallery, score) := r in
  if eight_bit probe then Raise eight_bit_error
  else if eight_bit gallery then Raise eight_bit_error
  else if fits_int64 score then Ok tt
  else Raise OverflowError.

(** The loop of [executemany] over the rows: each is bound and inserted
    in turn; the first that cannot be bound ends the loop, and the rows before
    it stay in the open transaction. *)
Fixpoint insert_rows (pending : list row) (vals : list row) : result unit * list row :=
  match vals with
  | [] => (Ok tt, pending)
  | r :: rest =>
      match bind_row r with
      | Ok _ => insert_rows (pending ++ [r]) rest
      | Raise e => (Raise e, pending)
      end
  end.

(** [cursor.executemany(bozorth3.sql_prepared_stmt_insert(), vals)]: the
    statement is prepared, which fails without the table; then the rows join
    the open transaction, which the first insert opens. *)
Definition executemany_insert (vals : list row) : M unit :=
  fun w => let db := w_db w in
           if db_has_table db
           then let (r, pending) := insert_rows (db_pending db) vals in
                (r, set_db (set_pending pending db) w)
           else (Raise (OperationalError "no such table: bozorth3"), w).

(** [conn.commit()] *)
Definition commit : M unit :=
  fun w => let db := w_db w in
           (Ok tt, set_db {| db_has_table := db_has_table db;
                             db_durable := db_durable db ++ db_pending db;
                             db_pending := [] |} w).

(** [map(print, group)] *)
Definition print_all (group : list bozorth3) : M unit :=
  fun w => (Ok tt, set_printed (w_printed w ++ group) w).

(** [conn.close()]: what is not committed is dropped. *)
Definition conn_close : M unit :=
  fun w => (Ok tt, set_db (set_pending [] (w_db w)) w).

(** The [for group in bozorth3s] loop of the script. *)
Fixpoint store_groups (bozorth3s : list matched) : M unit :=
  match bozorth3s with
  | [] => ret tt
  | One _ :: _ => raise (TypeError "argument 2 to map() must support iteration")
  | Many group :: rest =>
      let vals := map sql_insert_values group in
      executemany_insert vals ;;;
      commit ;;;
      print_all group ;;;
      store_groups rest
  end.









(* ================================================================= *)
(** ** The script *)

Definition lift {A} (r : result A) : M A :=
  match r with Ok a => ret a | Raise e => raise e end.

Section Script.
Context (env : Env).

(** [random.sample(mindtcts, int(perc * len(mindtcts)))] *)
Definition sampler (mindtcts : list mindtct) (perc : float) : M (list mindtct) :=
  k <- lift (sample_size perc (List.length mindtcts)) ;;
  random_sample env mindtcts k.

(** ['Generating samples'] and ['Matching']: lines 260 to 274.  The
    requests run in pool workers, which were forked before the script
    assigned its global [gallery]. *)
Definition sample_and_match (mindtcts : list mindtct)
           (perc_probe perc_gallery : float) : M unit :=
  probes <- sampler mindtcts perc_probe ;;
  gallery <- sampler mindtcts perc_gallery ;;
  let input :=
    map (fun probe => {| in_probe := probe;
                         in_gallery := PList (map PMindtct gallery) |}) probes in
  bozorth3s <- pool_map (run_bozorth3 env None) input ;;
  store_groups bozorth3s ;;;
  conn_close.

(** The script without its line 251: lines 245 to 248 and 253 to 274,
    [dataprefix] being what [prepare_dataset(prefix=prefix, skip=True)]
    returned there.  That call touches neither the store nor a file, but it
    creates the directory [prefix] when it is missing; [script], below, is
    the script with the call in its place. *)
Definition main (dataprefix md5listpath : string)
           (perc_probe perc_gallery : float) : M unit :=
  sqlite3_connect ;;;
  create_table ;;;
  paths <- locate_paths md5listpath dataprefix ;;
  let images := locate_images paths in
  mindtcts <- pool_map (mindtct_from_image env) images ;;
  sample_and_match mindtcts perc_probe perc_gallery.

End Script.





(* ================================================================= *)
(** ** Concrete worlds, used to run the definitions *)

Module Demo.

(** An extractor that writes [<oroot>.xyt], and a scorer whose standard
    output is [scorer_stdout] of its gallery files ([42] for a pair). *)
Definition demo_exec (scorer_stdout : list string -> string)
           (cmd : list string) (fs : files) : proc * files :=
  match cmd with
  | prog :: a :: b :: rest =>
      if String.eqb prog "bozorth3" then
        if String.eqb a "-p" then (Exited 0 (scorer_stdout rest), fs)
        else (Exited 0 ("42" ++ nl), fs)
      else if String.eqb prog "mindtct" then
        (Exited 0 EmptyString, store_file (b ++ ".xyt") ("minutiae of " ++ a) fs)
      else (CannotExec, fs)
  | _ => (CannotExec, fs)
  end.

Definition demo_env (scorer_stdout : list string -> string) : Env :=
  {| exec := demo_exec scorer_stdout;
     write_fails := fun _ => false;
     abspath := fun p => join "/home/user" p;
     draw := fun _ _ => O |}.

(** A scorer that prints one score line for each gallery file it is
    given, hence nothing when it is given none. *)
Definition one_line_each (galleryFiles : list string) : string :=
  String.concat EmptyString (map (fun _ => "7" ++ nl) galleryFiles).

(** A scorer that prints the three scores of the specification's
    example. *)
Definition scores_5_12_0 (galleryFiles : list string) : string :=
  "5" ++ nl ++ "12" ++ nl ++ "0".

(** The same world with a full disk: no file can be opened for
    writing. *)
Definition full_disk_env : Env :=
  {| exec := demo_exec one_line_each;
     write_fails := fun _ => true;
     abspath := fun p => join "/home/user" p;
     draw := fun _ _ => O |}.

Definition empty_db : DB :=
  {| db_has_table := false; db_durable := []; db_pending := [] |}.

Definition world0 : World :=
  {| w_dirs := ["/tmp"]; w_files := []; w_tmp := O; w_rng := O;
     w_db := empty_db; w_printed := [] |}.

(** A store whose table exists, as the script has it from line 248 on. *)
Definition world_db : World :=
  set_db {| db_has_table := true; db_durable := []; db_pending := [] |} world0.

Definition manifest : string :=
  "0a1b f0001_01.png" ++ nl ++
  "junk line with more tokens" ++ nl ++
  nl ++
  "2c3d   f0002_05.png  " ++ nl ++
  "4e5f f0003.PNG" ++ nl ++
  "6a7b notes.txt".

(** A world with the manifest at [md5.txt]. *)
Definition world_manifest : World := set_files [("md5.txt", manifest)] world0.

Definition t0 : mindtct := {| m_image := "id0"; m_xyt := "x0" |}.
Definition t1 : mindtct := {| m_image := "id1"; m_xyt := "x1" |}.
Definition t2 : mindtct := {| m_image := "id2"; m_xyt := "x2" |}.
Definition t3 : mindtct := {| m_image := "id3"; m_xyt := "x3" |}.

(** A population of [n] templates. *)
Definition templates (n : nat) : list mindtct :=
  map (fun i => {| m_image := "id" ++ of_nat i; m_xyt := "x" ++ of_nat i |}) (seq 0 n).



Definition one : float := PrimFloat.one.
Definition half : float := PrimFloat.div (float_of_int 1) (float_of_int 2).

End Demo.

(* ================================================================= *)
(** ** What the specification says, as definitions *)

(** The accepted-extensions set of the image locator. *)
Definition accepted_extensions : list string := [".png"].

(** The file extension of a record's path. *)
Definition extension (r : Path) : string := snd (splitext (p_filepath r)).

Definition has_accepted_extension (r : Path) : bool :=
  str_in (extension r) accepted_extensions.

(** The image of a record: its id is the record's checksum value. *)
Definition image_of (r : Path) : image :=
  {| img_id := cs_value (p_checksum r); img_path := r |}.

(** A line with exactly two whitespace-separated tokens. *)
Definition two_tokens (line : string) : bool :=
  Nat.eqb (List.length (split_ws line)) 2.

(** The record of a manifest line: none unless the line has exactly two
    tokens, the checksum and the relative path. *)
Definition records_of (prefix line : string) : list Path :=
  match split_ws line with
  | [c; p] => [{| p_checksum := {| cs_value := c; cs_kind := "md5" |};
                  p_filepath := join prefix p |}]
  | _ => []
  end.

(** A spelling of [.png] in another case: [.PNG], [.Png], ... *)
Definition is_case_variant (e : string) : bool :=
  String.eqb (lower e) ".png" && negb (String.eqb e ".png").

(** The directory [d] and everything under it are gone. *)
Definition absent (d : string) (w : World) : Prop :=
  ~ In d (w_dirs w) /\ forall p c, In (p, c) (w_files w) -> under d p = false.

(** The directory the next [mkdtemp()] creates. *)
Definition scratch_dir (w : World) : string := "/tmp/tmp" ++ of_nat (w_tmp w).

(** The command line of a one-to-many request over [n] gallery files in
    the scratch directory [tempdir]. *)
Definition one_to_many_cmd (tempdir : string) (n : nat) : list string :=
  "bozorth3" :: "-p" :: join tempdir "probe.xyt"
    :: map (fun i => join tempdir ("gallery" ++ of_nat i ++ ".xyt")) (seq 0 n).

(** The match result of a probe, a gallery template and a score. *)
Definition result_of (probe : mindtct) (sg : Z * mindtct) : bozorth3 :=
  {| b_probe := m_image probe; b_gallery := m_image (snd sg); b_score := fst sg |}.

(** A computation that creates and removes no directory. *)
Definition keeps_dirs {A} (c : M A) : Prop :=
  forall w, w_dirs (snd (c w)) = w_dirs w.

(** The row of the table [bozorth3(probe, gallery, score)] that holds a
    match result. *)
Definition table_row (b : bozorth3) : row := (b_probe b, b_gallery b, b_score b).

Definition table_rows (groups : list (list bozorth3)) : list row :=
  List.concat (map (map table_row) groups).

(** A match result the store takes: its two image ids are 7-bit strings
    and its score is within the signed 64-bit range. *)
Definition storable (b : bozorth3) : bool :=
  negb (eight_bit (b_probe b)) && negb (eight_bit (b_gallery b))
  && fits_int64 (b_score b).

Definition accepted (group : list bozorth3) : bool := forallb storable group.


(** A computation that leaves the result store and the printed output as
    they are. *)
Definition keeps_store {A} (c : M A) : Prop :=
  forall w, w_db (snd (c w)) = w_db w /\ w_printed (snd (c w)) = w_printed w.

(** The command line of the extractor for an image path and a scratch
    directory. *)
Definition extract_cmd (imgpath tempdir : string) : list string :=
  ["mindtct"; imgpath; join tempdir "result"].

(** The command line of a pairwise request in the scratch directory
    [tempdir]. *)
Definition pair_cmd (tempdir : string) : list string :=
  ["bozorth3"; join tempdir "probe.xyt"; join tempdir "gallery.xyt"].

(** The directories other than [d]. *)
Definition dirs_without (d : string) (dirs : list string) : list string :=
  filter (fun x => negb (String.eqb d x)) dirs.

(** The [try] block of [bozorth3_from_one_to_many]. *)
Definition one_to_many_try (env : Env) (cmd : list string) (probe : mindtct)
           (galleryset : list pyval) : M (list bozorth3) :=
  bind (check_output env cmd)
    (fun out =>
       match map_int (split_on LF (strip out)) with
       | Raise e => raise e
       | Ok scores =>
           match zip_results probe scores galleryset with
           | Raise e => raise e
           | Ok bs => ret bs
           end
       end).

(** The results of matching [probe] against each template of [gallery],
    in the order of the gallery, for the score [score_of probe g] of each
    pair. *)
Definition group_of (score_of : mindtct -> mindtct -> Z) (gallery : list mindtct)
           (probe : mindtct) : list bozorth3 :=
  map (fun g => {| b_probe := m_image probe; b_gallery := m_image g;
                   b_score := score_of probe g |}) gallery.

(** The rows of the table for the pairs of [probes] and [gallery]: grouped
    by probe in the order of the probes and, within a group, in the order of
    the gallery. *)
Definition pair_rows (score_of : mindtct -> mindtct -> Z)
           (probes gallery : list mindtct) : list row :=
  flat_map (fun probe => map (fun g => (m_image probe, m_image g, score_of probe g))
                             gallery) probes.

(* ================================================================= *)
(** ** Dataset provider *)

Definition DATASET_URL : string :=
  "https://s3.amazonaws.com/nist-srd/SD4/NISTSpecialDatabase4GrayScaleImagesofFIGS.zip".
Definition DATASET_SHA256 : string :=
  "4db6a8f3f9dc14c504180cbf67cdf35167a109280f121c901be37a80ac13c449".

(** [os.path.basename(p)]: [p[p.rfind('/') + 1:]] *)
Definition basename (p : string) : string := drop (Z.to_nat (rfind "/" p + 1)) p.

(** [os.path.exists(p)] *)
Definition path_exists (p : string) (w : World) : bool :=
  str_in p (w_dirs w)
  || match lookup_file p (w_files w) with Some _ => true | None => false end.

(** The outside world of the dataset provider: [sha256_hexdigest c] is the
    SHA-256 digest of the bytes [c] in hexadecimal; [served url] is what the
    network serves at [url], [None] when the download fails; [archive c
    prefix] is the list of the files that extracting the ZIP archive [c]
    into [prefix] writes, with their paths and contents, [None] when [c]
    cannot be read as an archive; [makedirs_os p dirs fs] is what the
    operating system makes of [os.makedirs(p)] where the directories [dirs]
    and the files [fs] exist: the error the call ends with, if any, and the
    directories it has created by then.  (The call fails for the empty path,
    for a path that exists, for one with a regular file among its ancestors,
    where a directory may not be created, ...; a call that fails can have
    created some ancestors already.)  What the script prints on the way is
    left out. *)
Record Remote : Type := {
  sha256_hexdigest : string -> string;
  served : string -> option string;
  archive : string -> string -> option (list (string * string));
  makedirs_os : string -> list string -> files -> option string * list string
}.

(** The proper ancestors of a path, nearest last: what lies before each
    slash that is not the first character.  (They serve the file system of
    [DemoRemote], below.) *)
Fixpoint ancestors_aux (seen : string) (p : string) : list string :=
  match p with
  | EmptyString => []
  | String c r =>
      if Ascii.eqb c "/" && negb (is_empty seen)
      then seen :: ancestors_aux (seen ++ String c EmptyString) r
      else ancestors_aux (seen ++ String c EmptyString) r
  end.

Definition ancestors (p : string) : list string := ancestors_aux EmptyString p.

(** [fd.read(blocksize)] until it returns nothing: the blocks that are
    passed to [chk.update].  A block size of [0] reads nothing at all, a
    negative one reads the whole file at once.  [fuel] bounds the number of
    blocks. *)
Fixpoint read_blocks (blocksize : Z) (content : string) (fuel : nat) : list string :=
  match fuel with
  | O => []
  | S fuel' =>
      let bits := if blocksize <? 0 then content
                  else take (Z.to_nat blocksize) content in
      if is_empty bits then []
      else bits :: read_blocks blocksize
                     (drop (String.length bits) content) fuel'
  end.

Section Provider.
Context (env : Env) (remote : Remote).

(** [os.makedirs(p)]: whether it succeeds, and what it creates, is the
    operating system's business. *)
Definition makedirs (p : string) : M unit :=
  fun w => let (failure, created) := makedirs_os remote p (w_dirs w) (w_files w) in
           let w' := set_dirs (created ++ w_dirs w)%list w in
           match failure with
           | None => (Ok tt, w')
           | Some what => (Raise (OSError what), w')
           end.

(** [hashlib.sha256()] updated with the blocks of the file: the digest of
    their concatenation. *)
Definition file_digest (blocksize : Z) (content : string) : string :=
  sha256_hexdigest remote
    (String.concat EmptyString
       (read_blocks blocksize content (S (String.length content)))).

(** [urllib.urlretrieve(url, local, report)] *)
Definition urlretrieve (url local : string) : M unit :=
  match served remote url with
  | Some c => write_file env local c
  | None => raise (IOError url)
  end.

Definition fetch_url (url sha256 prefix : string) (checksum_blocksize : Z)
           (dryRun : bool) : M string :=
  (if_missing <- (fun w => (Ok (negb (path_exists prefix w)), w)) ;;
   (if if_missing then makedirs prefix else ret tt) ;;;
   let local := join prefix (basename url) in
   if dryRun then ret local
   else
     cached <- (fun w => (Ok (path_exists local w), w)) ;;
     verified <-
       (if cached then
          content <- read_file local ;;
          ret (String.eqb sha256 (file_digest checksum_blocksize content))
        else ret false) ;;
     if verified then ret local
     else urlretrieve url local ;;; ret local)%py.

(** [zipfile.ZipFile(local, 'r').extractall(prefix)] *)
Fixpoint extract_members (members : list (string * string)) : M unit :=
  match members with
  | [] => ret tt
  | (path, c) :: rest => (write_file env path c ;;; extract_members rest)%py
  end.

Definition extractall (local prefix : string) : M unit :=
  (content <- read_file local ;;
   match archive remote content prefix with
   | None => raise (IOError local)
   | Some members => extract_members members
   end)%py.

(** [prepare_dataset(url, sha256, prefix, skip)]; an argument that is
    [None] or empty stands for its default. *)
Definition prepare_dataset (url sha256 : option string) (prefix : string)
           (skip : bool) : M string :=
  (let url := match url with
              | Some u => if is_empty u then DATASET_URL else u
              | None => DATASET_URL
              end in
   let sha256 := match sha256 with
                 | Some s => if is_empty s then DATASET_SHA256 else s
                 | None => DATASET_SHA256
                 end in
   local <- fetch_url url sha256 prefix (2 ^ 20) skip ;;
   (if negb skip then extractall local prefix else ret tt) ;;;
   ret (fst (splitext local)))%py.

End Provider.

(** The script, lines 245 to 274, for the command-line arguments [prefix]
    and [md5listpath] and for the two fractions that [float] made of the
    other two. *)
Definition script (env : Env) (remote : Remote) (prefix md5listpath : string)
           (perc_probe perc_gallery : float) : M unit :=
  (sqlite3_connect ;;;
   create_table ;;;
   dataprefix <- prepare_dataset env remote None None prefix true ;;
   paths <- locate_paths md5listpath dataprefix ;;
   let images := locate_images paths in
   mindtcts <- pool_map (mindtct_from_image env) images ;;
   sample_and_match env mindtcts perc_probe perc_gallery)%py.

(** The directories that [os.makedirs(prefix)] creates at line 251: none
    when the prefix exists, as the call is not made then. *)
Definition prefix_dirs (remote : Remote) (prefix : string) (w : World) : list string :=
  if path_exists prefix w then []
  else snd (makedirs_os remote prefix (w_dirs w) (w_files w)).

(** A string without the character [c]. *)
Fixpoint lacks (c : ascii) (s : string) : bool :=
  match s with
  | EmptyString => true
  | String x r => negb (Ascii.eqb x c) && lacks c r
  end.

(** The name of the dataset directory. *)
Definition dataset_name : string := "NISTSpecialDatabase4GrayScaleImagesofFIGS".

(** A concrete dataset provider, used to run the definitions: a stand-in
    digest that is its input with a prefix, a network that serves the same
    bytes at every URL, no readable archive, and a file system where only
    the shape of the tree can make [os.makedirs] fail. *)
Module DemoRemote.

Definition toy_digest (c : string) : string := "sha256:" ++ c.

Definition is_file (fs : files) (p : string) : bool :=
  match lookup_file p fs with Some _ => true | None => false end.

(** [os.makedirs(p)] where every directory may be written to: the empty
    path, a path that exists and a path below a regular file fail; otherwise
    the missing ancestors and [p] are created. *)
Definition plain_makedirs (p : string) (dirs : list string) (fs : files)
  : option string * list string :=
  if is_empty p then (Some "No such file or directory", [])
  else if str_in p dirs || is_file fs p then (Some "File exists", [])
  else if existsb (is_file fs) (ancestors p) then (Some "Not a directory", [])
  else (None, p :: filter (fun a => negb (str_in a dirs)) (ancestors p)).

Definition remote : Remote :=
  {| sha256_hexdigest := toy_digest;
     served := fun _ => Some "zip bytes";
     archive := fun _ _ => None;
     makedirs_os := plain_makedirs |}.


(** A world where [data/] exists and is empty. *)
Definition world_empty : World := set_dirs ["data"; "/tmp"] Demo.world0.

End DemoRemote.

(** A computation that only adds committed rows after those that are
    there, and does not drop the table. *)
Definition extends_store {A} (c : M A) : Prop :=
  forall w, exists added,
    db_durable (w_db (snd (c w))) = (db_durable (w_db w) ++ added)%list
    /\ (db_has_table (w_db w) = true -> db_has_table (w_db (snd (c w))) = true).

(** A token: not empty, and without whitespace. *)
Definition is_token (t : string) : Prop :=
  t <> EmptyString /\ forall c, In c (list_ascii_of_string t) -> is_space c = false.

(** The scores [scores] as a scorer prints them: in decimal, one on each
    line. *)
Definition score_lines (scores : list nat) : string :=
  String.concat nl (map of_nat scores).

(** A string of whitespace only. *)
Fixpoint all_space (s : string) : bool :=
  match s with
  | EmptyString => true
  | String c r => is_space c && all_space r
  end.

(** A string of decimal digits only. *)
Fixpoint all_digits (s : string) : bool :=
  match s with
  | EmptyString => true
  | String c r => is_digit c && all_digits r
  end.

(** The files after the payload of each template of [gs] is written to
    the file of the same rank in [names]. *)
Fixpoint written (names : list string) (gs : list mindtct) (fs : files) : files :=
  match names, gs with
  | n :: ns, g :: gs' => written ns gs' (store_file n (m_xyt g) fs)
  | _, _ => fs
  end.

(** The name of the scratch file of the gallery template of rank [i]. *)
Definition gallery_file (tempdir : string) (i : nat) : string :=
  join tempdir ("gallery" ++ of_nat i ++ ".xyt").

(** The files a one-to-many request started in the world [w] runs its
    scorer on: those of [w], with the payload of the probe in [probe.xyt] and
    the payload of each gallery template in the gallery file of its rank,
    all in the scratch directory of the request. *)
Definition scratch_files (probe : mindtct) (gallery : list mindtct) (w : World)
  : files :=
  written (map (gallery_file (scratch_dir w)) (seq 0 (List.length gallery))) gallery
    (store_file (join (scratch_dir w) "probe.xyt") (m_xyt probe) (w_files w)).

(** The files [fs] hold the input of a one-to-many request in the
    directory [d]: the payload of the probe and that of each gallery
    template, under their names. *)
Definition holds_request (d : string) (probe : mindtct) (gallery : list mindtct)
           (fs : files) : Prop :=
  lookup_file (join d "probe.xyt") fs = Some (m_xyt probe)
  /\ forall i g, nth_error gallery i = Some g ->
                 lookup_file (gallery_file d i) fs = Some (m_xyt g).

(** The files a pairwise request started in the world [w] runs its scorer
    on: those of [w], with the two payloads in [probe.xyt] and
    [gallery.xyt] in the scratch directory of the request. *)
Definition pair_files (probe gallery : mindtct) (w : World) : files :=
  store_file (join (scratch_dir w) "gallery.xyt") (m_xyt gallery)
    (store_file (join (scratch_dir w) "probe.xyt") (m_xyt probe) (w_files w)).
(** A computation that leaves no directory behind that was not there
    before. *)
Definition leaves_no_dir {A} (c : M A) : Prop :=
  forall w d, In d (w_dirs (snd (c w))) -> In d (w_dirs w).

(** A computation that, when it returns, has left no directory behind
    that was not there before. *)
Definition returns_clean {A} (c : M A) : Prop :=
  forall w a w', c w = (Ok a, w') -> forall d, In d (w_dirs w') -> In d (w_dirs w).

(** A scorer that reads the files it is given, used to run the
    definitions: it fails when the probe file or a gallery file is missing,
    and prints for each gallery file the length of its payload, each on a
    line. *)
Module DemoScorer.

Fixpoint payload_lengths (galleryFiles : list string) (fs : files) : option (list nat) :=
  match galleryFiles with
  | [] => Some []
  | f :: r =>
      match lookup_file f fs, payload_lengths r fs with
      | Some c, Some ns => Some (String.length c :: ns)
      | _, _ => None
      end
  end.

Definition reading_exec (cmd : list string) (fs : files) : proc * files :=
  match cmd with
  | prog :: flag :: probeFile :: galleryFiles =>
      if String.eqb prog "bozorth3" && String.eqb flag "-p" then
        match lookup_file probeFile fs, payload_lengths galleryFiles fs with
        | Some _, Some ns => (Exited 0 (score_lines ns ++ nl), fs)
        | _, _ => (Exited 1 EmptyString, fs)
        end
      else (CannotExec, fs)
  | _ => (CannotExec, fs)
  end.

Definition reading_env : Env :=
  {| exec := reading_exec;
     write_fails := fun _ => false;
     abspath := fun p => join "/home/user" p;
     draw := fun _ _ => O |}.

(** The score this scorer gives a pair. *)
Definition payload_length (probe gallery : mindtct) : Z :=
  Z.of_nat (String.length (m_xyt gallery)).

(** Templates with payloads of 5, 12 and 0 characters. *)
Definition g5 : mindtct := {| m_image := "id1"; m_xyt := "12345" |}.
Definition g12 : mindtct := {| m_image := "id2"; m_xyt := "123456789012" |}.
Definition g0 : mindtct := {| m_image := "id3"; m_xyt := EmptyString |}.

End DemoScorer.

(* ================================================================= *)
(** * Properties *)

(** ** Strings and paths *)

Lemma str_in_In (v : string) (l : list string) : str_in v l = true <-> In v l.
Proof.
  unfold str_in. rewrite existsb_exists. split.
  - intros [x [Hx He]]. apply String.eqb_eq in He. now subst.
  - intros H. exists v. split; [assumption | apply String.eqb_refl].
Qed.

Lemma split_ws_aux_lstrip (s : string) :
  split_ws_aux EmptyString (lstrip s) = split_ws_aux EmptyString s.
Proof.
  induction s as [| c r IH]; simpl; [reflexivity |].
  destruct (is_space c) eqn:Hc; [exact IH |]. simpl. now rewrite Hc.
Qed.

Lemma split_ws_aux_rstrip (s cur : string) :
  split_ws_aux cur (rstrip s) = split_ws_aux cur s.
Proof.
  revert cur. induction s as [| c r IH]; intros cur; simpl; [reflexivity |].
  destruct (is_space c) eqn:Hc; simpl.
  - destruct (rstrip r) eqn:Hr; simpl.
    + rewrite <- (IH EmptyString). simpl. now destruct (is_empty cur).
    + rewrite Hc. now rewrite <- (IH EmptyString).
  - rewrite Hc. apply IH.
Qed.

(** Stripping a line does not change its tokens. *)
Lemma split_ws_strip (s : string) : split_ws (strip s) = split_ws s.
Proof.
  unfold split_ws, strip. now rewrite split_ws_aux_rstrip, split_ws_aux_lstrip.
Qed.

Lemma rfind_from_app (c : ascii) (s t : string) (i last : Z) :
  rfind_from c (s ++ t) i last
  = rfind_from c t (i + Z.of_nat (String.length s)) (rfind_from c s i last).
Proof.
  revert i last. induction s as [| x r IH]; intros i last.
  - simpl. now rewrite Z.add_0_r.
  - cbn [append rfind_from String.length]. rewrite IH. f_equal. lia.
Qed.

Lemma drop_app_length (s t : string) : drop (String.length s) (s ++ t) = t.
Proof. induction s as [| x r IH]; simpl; [now destruct t | exact IH]. Qed.

Lemma splitext_loop_some (p : string) (i d : Z) (fuel : nat) (r : string * string) :
  splitext_loop p i d fuel = Some r ->
  r = (take (Z.to_nat d) p, drop (Z.to_nat d) p).
Proof.
  revert i. induction fuel as [| f IH]; intros i; simpl; [discriminate |].
  destruct (i <? d); [| discriminate].
  destruct (String.get (Z.to_nat i) p); [| discriminate].
  destruct (negb (Ascii.eqb a ".")).
  - now intros [= <-].
  - apply IH.
Qed.

(** The extension [splitext] returns is empty, or the path from its last
    dot on. *)
Lemma splitext_snd_cases (p : string) :
  snd (splitext p) = EmptyString \/
  snd (splitext p) = drop (Z.to_nat (rfind "." p)) p.
Proof.
  unfold splitext.
  destruct (rfind "." p >? rfind "/" p); [| now left].
  destruct (splitext_loop p (rfind "/" p + 1) (rfind "." p)
              (Z.to_nat (rfind "." p - (rfind "/" p + 1)))) eqn:E; [| now left].
  apply splitext_loop_some in E. subst. now right.
Qed.

Lemma lower_char_dot (c : ascii) : lower_char c = "."%char -> c = "."%char.
Proof.
  destruct c as [[|] [|] [|] [|] [|] [|] [|] [|]];
    vm_compute; intros H; try reflexivity; discriminate H.
Qed.

Lemma lower_char_letter (c x : ascii) :
  lower_char c = x -> x <> "."%char -> Ascii.eqb c "." = false.
Proof.
  intros H Hx. apply Ascii.eqb_neq. intros ->. apply Hx. now rewrite <- H.
Qed.

(** A case variant of [.png] is a dot followed by three characters that
    are not dots, and is not [.png] itself. *)
Lemma case_variant_shape (e : string) :
  is_case_variant e = true ->
  e <> ".png" /\
  exists a b c, e = String "." (String a (String b (String c EmptyString)))
                /\ Ascii.eqb a "." = false /\ Ascii.eqb b "." = false
                /\ Ascii.eqb c "." = false.
Proof.
  unfold is_case_variant. intros H. apply andb_prop in H. destruct H as [Hl Hn].
  apply String.eqb_eq in Hl. apply negb_true_iff in Hn. apply String.eqb_neq in Hn.
  split; [exact Hn |].
  destruct e as [| c0 [| c1 [| c2 [| c3 [| c4 r]]]]]; simpl in Hl; try discriminate Hl.
  injection Hl as H0 H1 H2 H3.
  apply lower_char_dot in H0. subst c0.
  exists c1, c2, c3. split; [reflexivity |].
  repeat split; eapply lower_char_letter; try eassumption; discriminate.
Qed.

Lemma extension_of_case_variant (stem e : string) :
  is_case_variant e = true ->
  snd (splitext (stem ++ e)) = EmptyString \/ snd (splitext (stem ++ e)) = e.
Proof.
  intros H. destruct (case_variant_shape e H) as [_ [a [b [c [-> [Ha [Hb Hc]]]]]]].
  destruct (splitext_snd_cases (stem ++ String "." (String a (String b (String c EmptyString)))))
    as [E | E]; [now left | right].
  rewrite E. unfold rfind. rewrite rfind_from_app.
  cbn [rfind_from]. rewrite Ha, Hb, Hc. cbn [Ascii.eqb Bool.eqb].
  rewrite Z.add_0_l, Nat2Z.id. apply drop_app_length.
Qed.

(** ** Image locator *)

Lemma predicate_has_accepted_extension (r : Path) :
  predicate r = has_accepted_extension r.
Proof. reflexivity. Qed.

Lemma locate_images_filter_map (paths : list Path) :
  locate_images paths = map image_of (filter has_accepted_extension paths).
Proof.
  induction paths as [| r rest IH]; simpl; [reflexivity |].
  rewrite predicate_has_accepted_extension.
  destruct (has_accepted_extension r); simpl; now rewrite IH.
Qed.

Lemma locate_images_In (paths : list Path) (img : image) :
  In img (locate_images paths) <->
  exists r, In r paths /\ has_accepted_extension r = true /\ img = image_of r.
Proof.
  rewrite locate_images_filter_map, in_map_iff. split.
  - intros [r [<- Hr]]. apply filter_In in Hr. exists r. tauto.
  - intros [r [Hin [Hacc ->]]]. exists r. split; [reflexivity |].
    apply filter_In. tauto.
Qed.

(** C6. For every sequence of path records, the image locator yields
    exactly the records whose extension is in the accepted set [{.png}], in
    their order, each as the image whose id is the record's checksum value;
    no image comes from a record with another extension.  The locator is a
    function of the records alone: it reads no file. *)
Theorem C6_locate_images_filters_and_maps (paths : list Path) :
  locate_images paths = map image_of (filter has_accepted_extension paths)
  /\ map img_path (locate_images paths) = filter has_accepted_extension paths
  /\ (forall img, In img (locate_images paths) ->
        In (img_path img) paths
        /\ In (extension (img_path img)) accepted_extensions
        /\ img_id img = cs_value (p_checksum (img_path img)))
  /\ (forall r, In r paths -> In (extension r) accepted_extensions ->
        In (image_of r) (locate_images paths)).
Proof.
  split; [apply locate_images_filter_map |].
  split.
  { rewrite locate_images_filter_map, map_map. simpl. apply map_id. }
  split.
  - intros img H. apply locate_images_In in H. destruct H as [r [Hin [Hacc ->]]].
    split; [exact Hin |]. split; [| reflexivity].
    apply str_in_In. exact Hacc.
  - intros r Hin Hext. apply locate_images_In. exists r.
    split; [exact Hin |]. split; [| reflexivity].
    apply str_in_In. exact Hext.
Qed.

(** C10. The extension test is an exact, case-sensitive comparison with
    [.png]: a record whose path ends in [.PNG] or in any other case variant
    of [.png] fails the test, and no image is made of it. *)
Theorem C10_extension_test_is_case_sensitive
        (paths : list Path) (r : Path) (stem e : string) :
  is_case_variant e = true ->
  p_filepath r = stem ++ e ->
  predicate r = false /\ ~ In (image_of r) (locate_images paths).
Proof.
  intros He Hp.
  assert (Hpred : predicate r = false).
  { unfold predicate. rewrite Hp.
    destruct (extension_of_case_variant stem e He) as [-> | ->]; [reflexivity |].
    destruct (case_variant_shape e He) as [Hne _].
    simpl. apply String.eqb_neq in Hne. now rewrite Hne. }
  split; [exact Hpred |].
  intros Hin. apply locate_images_In in Hin.
  destruct Hin as [r' [_ [Hacc Heq]]].
  injection Heq as _ <-.
  rewrite <- predicate_has_accepted_extension in Hacc. congruence.
Qed.

Lemma C10_witness :
  is_case_variant ".PNG" = true
  /\ predicate {| p_checksum := {| cs_value := "4e5f"; cs_kind := "md5" |};
                  p_filepath := "data/f0003.PNG" |} = false.
Proof.
  split; [reflexivity |].
  apply (C10_extension_test_is_case_sensitive []
           {| p_checksum := {| cs_value := "4e5f"; cs_kind := "md5" |};
              p_filepath := "data/f0003.PNG" |} "data/f0003" ".PNG");
    reflexivity.
Defined.

(** ** Manifest reader *)

Lemma new_Checksum_ok (value kind : string) :
  new_Checksum value kind = Ok {| cs_value := value; cs_kind := kind |}.
Proof. reflexivity. Qed.

Lemma locate_paths_lines_records (prefix : string) (lines : list string) :
  locate_paths_lines prefix lines = Ok (flat_map (records_of prefix) lines).
Proof.
  induction lines as [| l rest IH]; [reflexivity |].
  cbn [locate_paths_lines flat_map]. rewrite split_ws_strip, IH.
  unfold records_of.
  destruct (split_ws l) as [| a [| b [| c t]]]; try reflexivity.
Qed.

Lemma records_of_two_tokens (prefix line : string) :
  List.length (records_of prefix line) = if two_tokens line then 1%nat else 0%nat.
Proof.
  unfold records_of, two_tokens.
  destruct (split_ws line) as [| a [| b [| c t]]]; reflexivity.
Qed.

Lemma records_count (prefix : string) (lines : list string) :
  List.length (flat_map (records_of prefix) lines)
  = List.length (filter two_tokens lines).
Proof.
  induction lines as [| l rest IH]; [reflexivity |].
  cbn [flat_map filter]. rewrite length_app, records_of_two_tokens, IH.
  now destruct (two_tokens l).
Qed.

(** C7. For every manifest file, the reader yields one record for each line
    with exactly two whitespace-separated tokens: the checksum, of kind
    [md5], and the path joined to the dataset root.  Every other line is
    skipped: it yields no record and raises nothing. *)
Theorem C7_locate_paths_reads_two_token_lines
        (w : World) (path_md5list prefix content : string) :
  lookup_file path_md5list (w_files w) = Some content ->
  locate_paths path_md5list prefix w
  = (Ok (flat_map (records_of prefix) (file_lines content)), w)
  /\ List.length (flat_map (records_of prefix) (file_lines content))
     = List.length (filter two_tokens (file_lines content))
  /\ (forall line, two_tokens line = false -> records_of prefix line = [])
  /\ (forall line, two_tokens line = true ->
        exists c p, split_ws line = [c; p]
                    /\ records_of prefix line
                       = [{| p_checksum := {| cs_value := c; cs_kind := "md5" |};
                             p_filepath := join prefix p |}]).
Proof.
  intros Hfile. split.
  { unfold locate_paths, bind, read_file. rewrite Hfile.
    now rewrite locate_paths_lines_records. }
  split; [apply records_count |].
  split; intros line; unfold two_tokens, records_of;
    destruct (split_ws line) as [| a [| b [| c t]]]; simpl; try discriminate;
    try reflexivity.
  intros _. now exists a, b.
Qed.

Lemma C7_witness :
  fst (locate_paths "md5.txt" "data" Demo.world_manifest)
  = Ok (flat_map (records_of "data") (file_lines Demo.manifest)).
Proof.
  exact (f_equal fst
           (proj1 (C7_locate_paths_reads_two_token_lines
                     Demo.world_manifest "md5.txt" "data" Demo.manifest eq_refl))).
Defined.

(** ** Checksum *)

(** C3. The specification has the construction of a [Checksum] fail when
    [kind] is outside the enumerated set.  The code lists the set in a
    validator that returns the membership test instead of raising, so every
    construction succeeds: here for the kind [crc32], which is not in the
    set. *)
Theorem C3_checksum_kind_is_not_enforced :
  str_in "crc32" Checksum_kinds = false
  /\ new_Checksum "0a1b" "crc32" = Ok {| cs_value := "0a1b"; cs_kind := "crc32" |}
  /\ forall value kind, is_ok (new_Checksum value kind) = true.
Proof. repeat split. Qed.

(** ** Request dispatch *)

(** C2. The specification has a request whose gallery is neither a
    template nor a list fail with a [ValueError] that names the type of the
    offending value.  The [else] branch of [run] formats [type(gallery)] with
    the global [gallery] of the module, not [self.gallery]: without such a
    global the request fails with a [NameError]; with the script's global (a
    list) the message names the type [list], whatever the offending value
    is (here an [int]). *)
Theorem C2_unhandled_gallery_names_wrong_type (env : Env) (w : World) (probe : mindtct) :
  let request := {| in_probe := probe; in_gallery := PInt 42 |} in
  fst (run env None request w)
  = Raise (NameError "global name 'gallery' is not defined")
  /\ fst (run env (Some (PList [])) request w)
     = Raise (ValueError "Unhandled type for gallery: <type 'list'>")
  /\ type_repr (in_gallery request) = "<type 'int'>".
Proof. repeat split. Qed.

(** ** The monad and the file system *)

Lemma bind_ok {A B} (c : M A) (k : A -> M B) (w w' : World) (a : A) :
  c w = (Ok a, w') -> bind c k w = k a w'.
Proof. unfold bind. now intros ->. Qed.


Lemma mkdtemp_creates (w : World) :
  mkdtemp w = (Ok (scratch_dir w),
               set_tmp (S (w_tmp w)) (set_dirs (scratch_dir w :: w_dirs w) w)).
Proof. reflexivity. Qed.

Lemma write_file_dirs (env : Env) (p c : string) (w : World) :
  w_dirs (snd (write_file env p c w)) = w_dirs w.
Proof. unfold write_file. now destruct (write_fails env p). Qed.

Lemma write_file_ok (env : Env) (p c : string) (w : World) :
  write_fails env p = false ->
  write_file env p c w = (Ok tt, set_files (store_file p c (w_files w)) w).
Proof. unfold write_file. now intros ->. Qed.

Lemma spawn_dirs (env : Env) (cmd : list string) (w : World) :
  w_dirs (snd (spawn env cmd w)) = w_dirs w.
Proof.
  unfold spawn. destruct (exec env cmd (w_files w)) as [[| code out] fs]; reflexivity.
Qed.

Lemma check_call_dirs (env : Env) (cmd : list string) (w : World) :
  w_dirs (snd (check_call env cmd w)) = w_dirs w.
Proof.
  unfold check_call, bind. pose proof (spawn_dirs env cmd w) as H.
  destruct (spawn env cmd w) as [[r | e] w1]; simpl in *; [| exact H].
  now destruct (fst r =? 0).
Qed.

Lemma check_output_dirs (env : Env) (cmd : list string) (w : World) :
  w_dirs (snd (check_output env cmd w)) = w_dirs w.
Proof.
  unfold check_output, bind. pose proof (spawn_dirs env cmd w) as H.
  destruct (spawn env cmd w) as [[r | e] w1]; simpl in *; [| exact H].
  now destruct (fst r =? 0).
Qed.

Lemma check_output_ok (env : Env) (cmd : list string) (w : World) (out : string) :
  fst (exec env cmd (w_files w)) = Exited 0 out ->
  fst (check_output env cmd w) = Ok out.
Proof.
  unfold check_output, bind, spawn.
  destruct (exec env cmd (w_files w)) as [p fs]. simpl. now intros ->.
Qed.

Lemma read_file_dirs (p : string) (w : World) :
  w_dirs (snd (read_file p w)) = w_dirs w.
Proof. unfold read_file. now destruct (lookup_file p (w_files w)). Qed.

(** Once [rmtree d] has run on a world where [d] exists, [d] and all that
    is under it are gone. *)
Lemma rmtree_absent (d : string) (w : World) :
  In d (w_dirs w) ->
  fst (rmtree d w) = Ok tt /\ absent d (snd (rmtree d w)).
Proof.
  intros Hin. unfold rmtree.
  apply str_in_In in Hin. rewrite Hin. split; [reflexivity |].
  split; simpl.
  - intros H. apply filter_In in H. destruct H as [_ H].
    now rewrite String.eqb_refl in H.
  - intros p c H. apply filter_In in H. destruct H as [_ H].
    now apply negb_true_iff in H.
Qed.

(** [try: body finally: rmtree(d)]: when [body] leaves the directories as
    they are, [d] is gone afterwards, whatever [body] returned or raised,
    and the outcome of [body] is the outcome of the whole. *)
Lemma try_finally_rmtree {A} (body : M A) (d : string) (w : World) :
  In d (w_dirs w) ->
  w_dirs (snd (body w)) = w_dirs w ->
  fst (try_finally body (rmtree d) w) = fst (body w)
  /\ absent d (snd (try_finally body (rmtree d) w)).
Proof.
  intros Hin Hdirs. unfold try_finally.
  destruct (body w) as [r w1]. simpl in Hdirs.
  rewrite <- Hdirs in Hin.
  destruct (rmtree_absent d w1 Hin) as [Hok Habs].
  destruct (rmtree d w1) as [[[] | e] w2]; simpl in *; [| discriminate Hok].
  now split.
Qed.

Lemma bind_keeps_dirs {A B} (c : M A) (k : A -> M B) :
  keeps_dirs c -> (forall a, keeps_dirs (k a)) -> keeps_dirs (bind c k).
Proof.
  intros Hc Hk w. unfold bind. specialize (Hc w).
  destruct (c w) as [[a | e] w1]; simpl in *; [| exact Hc].
  now rewrite Hk.
Qed.

Lemma ret_keeps_dirs {A} (a : A) : keeps_dirs (ret a).
Proof. now intros w. Qed.

Lemma raise_keeps_dirs {A} (e : exn) : keeps_dirs (@raise A e).
Proof. now intros w. Qed.

Lemma lift_keeps_dirs {A} (r : result A) : keeps_dirs (lift r).
Proof. destruct r; [apply ret_keeps_dirs | apply raise_keeps_dirs]. Qed.

Lemma write_xyt_keeps_dirs (env : Env) (p : string) (v : pyval) :
  keeps_dirs (write_xyt env p v).
Proof.
  destruct v; simpl; try (intros w; apply write_file_dirs);
    (apply bind_keeps_dirs;
     [intros w; apply write_file_dirs | intros; apply raise_keeps_dirs]).
Qed.

Lemma write_galleries_keeps_dirs (env : Env) (fs : list string) (gs : list pyval) :
  keeps_dirs (write_galleries env fs gs).
Proof.
  revert gs. induction fs as [| f fs IH]; intros gs; [apply ret_keeps_dirs |].
  destruct gs as [| g gs]; [apply ret_keeps_dirs |].
  simpl. apply bind_keeps_dirs; [apply write_xyt_keeps_dirs | intros; apply IH].
Qed.

Lemma write_galleries_ok (env : Env) (fs : list string) (gs : list mindtct) (w : World) :
  (forall p, write_fails env p = false) ->
  fst (write_galleries env fs (map PMindtct gs) w) = Ok tt.
Proof.
  intros Hw. revert gs w. induction fs as [| f fs IH]; intros gs w; [reflexivity |].
  destruct gs as [| g gs]; [reflexivity |].
  cbn [map write_galleries write_xyt].
  rewrite (bind_ok _ _ _ _ _ (write_file_ok env f (m_xyt g) w (Hw f))).
  apply IH.
Qed.

(** ** Scratch directories *)

(** The extractor removes its scratch directory on every way out. *)
Lemma mindtct_from_image_cleans_up (env : Env) (img : image) (w : World) :
  absent (scratch_dir w) (snd (mindtct_from_image env img w)).
Proof.
  unfold mindtct_from_image.
  rewrite (bind_ok _ _ _ _ _ (mkdtemp_creates w)).
  apply try_finally_rmtree; [now left |].
  apply bind_keeps_dirs; [intros w'; apply check_call_dirs |].
  intros _. apply bind_keeps_dirs; [intros w'; apply read_file_dirs |].
  intros xyt. apply ret_keeps_dirs.
Qed.

Lemma match_body_keeps_dirs (env : Env) (cmd : list string) {A}
      (k : string -> M A) :
  (forall s, keeps_dirs (k s)) -> keeps_dirs (bind (check_output env cmd) k).
Proof.
  intros Hk. apply bind_keeps_dirs; [intros w; apply check_output_dirs | exact Hk].
Qed.

(** The pairwise matcher removes its scratch directory on every way out
    that lies after the two scratch files are written. *)
Lemma bozorth3_from_group_cleans_up (env : Env) (probe gallery : mindtct) (w : World) :
  write_fails env (join (scratch_dir w) "probe.xyt") = false ->
  write_fails env (join (scratch_dir w) "gallery.xyt") = false ->
  absent (scratch_dir w) (snd (bozorth3_from_group env probe gallery w)).
Proof.
  intros Hp Hg. unfold bozorth3_from_group.
  rewrite (bind_ok _ _ _ _ _ (mkdtemp_creates w)).
  rewrite (bind_ok _ _ _ _ _ (write_file_ok env _ _ _ Hp)).
  rewrite (bind_ok _ _ _ _ _ (write_file_ok env _ _ _ Hg)).
  apply try_finally_rmtree; [now left |].
  apply match_body_keeps_dirs. intros s.
  destruct (int_of_str (strip s)); [apply ret_keeps_dirs | apply raise_keeps_dirs].
Qed.

Lemma one_to_many_body_keeps_dirs (env : Env) (cmd : list string)
      (probe : mindtct) (galleryset : list pyval) :
  keeps_dirs
    (bind (check_output env cmd)
       (fun out =>
          match map_int (split_on LF (strip out)) with
          | Raise e => raise e
          | Ok scores =>
              match zip_results probe scores galleryset with
              | Raise e => raise e
              | Ok bs => ret bs
              end
          end)).
Proof.
  apply match_body_keeps_dirs. intros s.
  destruct (map_int (split_on LF (strip s))); [| apply raise_keeps_dirs].
  destruct (zip_results probe a galleryset);
    [apply ret_keeps_dirs | apply raise_keeps_dirs].
Qed.

(** So does the one-to-many matcher. *)
Lemma bozorth3_from_one_to_many_cleans_up
      (env : Env) (probe : mindtct) (gallery : list mindtct) (w : World) :
  (forall p, write_fails env p = false) ->
  absent (scratch_dir w)
         (snd (bozorth3_from_one_to_many env probe (map PMindtct gallery) w)).
Proof.
  intros Hw. unfold bozorth3_from_one_to_many.
  rewrite (bind_ok _ _ _ _ _ (mkdtemp_creates w)).
  rewrite (bind_ok _ _ _ _ _ (write_file_ok env _ _ _ (Hw _))).
  match goal with
  | |- context [bind (write_galleries env ?fs ?gs) _ ?w0] =>
      pose proof (write_galleries_ok env fs gallery w0 Hw) as Hok;
      pose proof (write_galleries_keeps_dirs env fs gs w0) as Hd;
      destruct (write_galleries env fs gs w0) as [r w2] eqn:E
  end.
  simpl in Hok. subst r.
  rewrite (bind_ok _ _ _ _ _ E).
  apply try_finally_rmtree.
  - simpl in Hd. rewrite Hd. now left.
  - apply one_to_many_body_keeps_dirs.
Qed.

(** C9. The specification has every extractor and matcher invocation delete
    its scratch directory on every way out.  The matchers write their
    scratch files between [mkdtemp()] and [try:], so a write that fails
    leaves the directory behind: here on a full disk, for the pairwise and
    the one-to-many matcher, where the directory [/tmp/tmp0] that the
    invocation created is still there when it has raised [IOError]. *)
Theorem C9_scratch_directory_leaks_when_write_fails :
  let pair := bozorth3_from_group Demo.full_disk_env Demo.t0 Demo.t1 Demo.world0 in
  let many := bozorth3_from_one_to_many Demo.full_disk_env Demo.t0
                [PMindtct Demo.t1; PMindtct Demo.t2] Demo.world0 in
  scratch_dir Demo.world0 = "/tmp/tmp0"
  /\ ~ In "/tmp/tmp0" (w_dirs Demo.world0)
  /\ fst pair = Raise (IOError "/tmp/tmp0/probe.xyt")
  /\ In "/tmp/tmp0" (w_dirs (snd pair))
  /\ fst many = Raise (IOError "/tmp/tmp0/probe.xyt")
  /\ In "/tmp/tmp0" (w_dirs (snd many)).
Proof.
  repeat split; try (now left).
  intros [H | []]. discriminate H.
Qed.

(** ** One-to-many matcher *)

Lemma zip_results_templates (probe : mindtct) (scores : list Z) (gallery : list mindtct) :
  zip_results probe scores (map PMindtct gallery)
  = Ok (map (result_of probe) (combine scores gallery)).
Proof.
  revert gallery. induction scores as [| s ss IH]; intros gallery; [reflexivity |].
  destruct gallery as [| g gs]; [reflexivity |].
  cbn [map zip_results attr_image combine]. now rewrite IH.
Qed.

Lemma nth_error_combine {A B} (l1 : list A) (l2 : list B) (i : nat) (a : A) (b : B) :
  nth_error l1 i = Some a -> nth_error l2 i = Some b ->
  nth_error (combine l1 l2) i = Some (a, b).
Proof.
  revert l2 i. induction l1 as [| x l1 IH]; intros l2 i H1 H2.
  - now destruct i.
  - destruct l2 as [| y l2]; [now destruct i |].
    destruct i as [| i]; simpl in *; [congruence | now apply IH].
Qed.

(** ** Result store *)


(** The values that are bound for a match result are its row. *)
Lemma sql_insert_values_row (b : bozorth3) : sql_insert_values b = table_row b.
Proof. reflexivity. Qed.

Lemma bind_row_storable (b : bozorth3) :
  storable b = true -> bind_row (sql_insert_values b) = Ok tt.
Proof.
  unfold storable, bind_row, sql_insert_values. intros H.
  apply andb_prop in H. destruct H as [H Hs].
  apply andb_prop in H. destruct H as [Hp Hg].
  apply negb_true_iff in Hp. apply negb_true_iff in Hg.
  now rewrite Hp, Hg, Hs.
Qed.




Lemma insert_rows_accepted (pending : list row) (g : list bozorth3) :
  accepted g = true ->
  insert_rows pending (map sql_insert_values g)
  = (Ok tt, (pending ++ map table_row g)%list).
Proof.
  unfold accepted. revert pending. induction g as [| b r IH]; intros pending H.
  - cbn. now rewrite app_nil_r.
  - cbn [forallb] in H. apply andb_prop in H. destruct H as [Hb Hr].
    cbn [map insert_rows]. rewrite (bind_row_storable b Hb), (IH _ Hr).
    rewrite sql_insert_values_row. now rewrite <- app_assoc.
Qed.


(** An insert of a group that the store takes. *)
Lemma executemany_accepted (g : list bozorth3) (w : World) :
  db_has_table (w_db w) = true ->
  accepted g = true ->
  executemany_insert (map sql_insert_values g) w
  = (Ok tt, set_db (set_pending (db_pending (w_db w) ++ map table_row g)%list (w_db w)) w).
Proof.
  intros Ht Ha. unfold executemany_insert.
  now rewrite Ht, (insert_rows_accepted _ g Ha).
Qed.



(** One turn of the loop, on the list of what the requests returned. *)
Lemma store_groups_turn (g : list bozorth3) (l : list matched) (w : World) :
  db_has_table (w_db w) = true ->
  db_pending (w_db w) = [] ->
  accepted g = true ->
  exists w3,
    store_groups (Many g :: l) w = store_groups l w3
    /\ db_has_table (w_db w3) = true
    /\ db_pending (w_db w3) = []
    /\ db_durable (w_db w3) = (db_durable (w_db w) ++ map table_row g)%list
    /\ w_printed w3 = (w_printed w ++ g)%list.
Proof.
  intros Ht Hp Ha.
  cbn [store_groups].
  rewrite (bind_ok _ _ _ _ _ (executemany_accepted g w Ht Ha)).
  unfold bind, commit, print_all. cbn. eexists. split; [reflexivity |].
  cbn. rewrite Ht, Hp. repeat split.
Qed.

(** The loop over groups that the store takes: it completes, with all
    their rows durable and printed. *)
Lemma store_groups_all (groups : list (list bozorth3)) (w : World) :
  db_has_table (w_db w) = true ->
  db_pending (w_db w) = [] ->
  forallb accepted groups = true ->
  exists w',
    store_groups (map Many groups) w = (Ok tt, w')
    /\ db_durable (w_db w') = (db_durable (w_db w) ++ table_rows groups)%list
    /\ db_pending (w_db w') = []
    /\ w_printed w' = (w_printed w ++ List.concat groups)%list.
Proof.
  revert w. induction groups as [| g gs IH]; intros w Ht Hp Ha.
  - exists w. cbn. rewrite !app_nil_r. now repeat split.
  - cbn [forallb] in Ha. apply andb_prop in Ha. destruct Ha as [Hg Hgs].
    cbn [map].
    destruct (store_groups_turn g (map Many gs) w Ht Hp Hg)
      as [w3 [Hrun [Ht3 [Hp3 [Hd3 Hpr3]]]]].
    destruct (IH w3 Ht3 Hp3 Hgs) as [w' [Hrun' [Hd' [Hp' Hpr']]]].
    exists w'. split; [now rewrite Hrun |].
    split; [| split; [exact Hp' |]].
    + rewrite Hd', Hd3. unfold table_rows. cbn [map List.concat].
      now rewrite app_assoc.
    + rewrite Hpr', Hpr3. cbn [List.concat]. now rewrite app_assoc.
Qed.









(** ** Sampler *)

Lemma set_nth_length {A} (j : nat) (v : A) (l : list A) :
  List.length (set_nth j v l) = List.length l.
Proof.
  revert j. induction l as [| x r IH]; intros [| j]; simpl; try reflexivity.
  now rewrite IH.
Qed.

Lemma removelast_length {A} (l : list A) :
  List.length (removelast l) = Nat.pred (List.length l).
Proof.
  induction l as [| x r IH]; [reflexivity |].
  destruct r as [| y r']; [reflexivity |].
  cbn [removelast List.length] in *. now rewrite IH.
Qed.

Lemma last_removelast_perm {A} (r : list A) (d : A) :
  r <> [] -> Permutation (last r d :: removelast r) r.
Proof.
  intros Hr. rewrite (app_removelast_last d Hr) at 3.
  apply Permutation_cons_append.
Qed.

(** One turn of the selection loop takes the element at [j] out of the
    pool: the element and the new pool together are the old pool. *)
Lemma select_perm {A} (pool : list A) (j : nat) (x : A) :
  nth_error pool j = Some x ->
  Permutation (x :: removelast (set_nth j (last pool x) pool)) pool.
Proof.
  revert j. induction pool as [| a r IH]; intros j Hj; [now destruct j |].
  destruct j as [| j].
  - injection Hj as ->. destruct r as [| b r']; [reflexivity |].
    apply perm_skip.
    change (Permutation (last (b :: r') x :: removelast (b :: r')) (b :: r')).
    now apply last_removelast_perm.
  - cbn [nth_error] in Hj.
    assert (Hr : r <> []) by (intros ->; now destruct j).
    destruct r as [| b r']; [now elim Hr |].
    change (last (a :: b :: r') x) with (last (b :: r') x).
    cbn [set_nth].
    assert (Hne : set_nth j (last (b :: r') x) (b :: r') <> []).
    { intros H. apply (f_equal (@List.length A)) in H.
      rewrite set_nth_length in H. discriminate H. }
    destruct (set_nth j (last (b :: r') x) (b :: r')) as [| c t] eqn:E;
      [now elim Hne |].
    change (removelast (a :: c :: t)) with (a :: removelast (c :: t)).
    rewrite perm_swap. apply perm_skip. rewrite <- E. now apply IH.
Qed.

Section SamplerFacts.
Context (env : Env) {A : Type}.
Hypothesis draw_in_range : forall c m, (0 < m)%nat -> (draw env c m < m)%nat.

(** The selection loop returns [k] elements, taken from distinct
    positions: with what is left over they make up the pool. *)
Lemma sample_loop_selects (k : nat) (pool : list A) (w : World) :
  (k <= List.length pool)%nat ->
  exists sample rest w',
    sample_loop env pool k w = (Ok sample, w')
    /\ List.length sample = k
    /\ Permutation (sample ++ rest) pool
    /\ w_db w' = w_db w /\ w_files w' = w_files w /\ w_dirs w' = w_dirs w
    /\ w_printed w' = w_printed w.
Proof.
  revert pool w. induction k as [| k IH]; intros pool w Hk.
  - exists [], pool, w.
    split; [reflexivity |]. split; [reflexivity |].
    split; [apply Permutation_refl |].
    now repeat split.
  - cbn [sample_loop]. unfold bind at 1. unfold random_below at 1.
    assert (Hpos : (0 < List.length pool)%nat) by lia.
    pose proof (draw_in_range (w_rng w) (List.length pool) Hpos) as Hj.
    destruct (nth_error pool (draw env (w_rng w) (List.length pool))) as [x |] eqn:E;
      [| apply nth_error_None in E; lia].
    set (pool' := removelast (set_nth (draw env (w_rng w) (List.length pool))
                                      (last pool x) pool)).
    assert (Hlen : (k <= List.length pool')%nat).
    { unfold pool'. rewrite removelast_length, set_nth_length. lia. }
    destruct (IH pool' (set_rng (S (w_rng w)) w) Hlen)
      as [sample [rest [w' [Hrun [Hl [Hperm [Hdb [Hf [Hd Hpr]]]]]]]]].
    exists (x :: sample), rest, w'.
    split; [now rewrite (bind_ok _ _ _ _ _ Hrun) |].
    split; [simpl; now rewrite Hl |].
    split.
    { cbn [app]. rewrite Hperm. now apply select_perm. }
    now repeat split.
Qed.

End SamplerFacts.

(** The sampler returns [int(perc * N)] templates when that number is
    between [0] and [N], and touches nothing but the random source. *)
Lemma sampler_selects (env : Env) (population : list mindtct) (perc : float)
      (k : Z) (w : World) :
  (forall c m, (0 < m)%nat -> (draw env c m < m)%nat) ->
  sample_size perc (List.length population) = Ok k ->
  0 <= k <= Z.of_nat (List.length population) ->
  exists sample rest w',
    sampler env population perc w = (Ok sample, w')
    /\ Z.of_nat (List.length sample) = k
    /\ Permutation (sample ++ rest) population
    /\ w_db w' = w_db w /\ w_files w' = w_files w /\ w_dirs w' = w_dirs w
    /\ w_printed w' = w_printed w.
Proof.
  intros Hdraw Hk Hrange.
  destruct (sample_loop_selects env Hdraw (Z.to_nat k) population w)
    as [sample [rest [w' [Hrun [Hl H]]]]]; [lia |].
  exists sample, rest, w'.
  split.
  - unfold sampler. rewrite Hk. cbn [lift]. unfold bind, ret, random_sample.
    replace ((0 <=? k) && (k <=? Z.of_nat (List.length population))) with true
      by (symmetry; apply andb_true_intro; split; apply Z.leb_le; lia).
    exact Hrun.
  - split; [lia | exact H].
Qed.




(** ** Empty probe and gallery sets *)

Lemma try_finally_ok {A} (body : M A) (fin : M unit) (w : World) (a : A) :
  fst (try_finally body fin w) = Ok a -> fst (body w) = Ok a.
Proof.
  unfold try_finally. destruct (body w) as [r w1].
  destruct (fin w1) as [[[] | e] w2]; simpl; [trivial | discriminate].
Qed.






(* ================================================================= *)
(** * Further properties of the stages *)

(** ** The extractor *)

Lemma dirs_without_cons_same (d : string) (dirs : list string) :
  dirs_without d (d :: dirs) = dirs_without d dirs.
Proof. unfold dirs_without. simpl. now rewrite String.eqb_refl. Qed.

Lemma dirs_without_fresh (d : string) (dirs : list string) :
  ~ In d dirs -> dirs_without d dirs = dirs.
Proof.
  unfold dirs_without. induction dirs as [| x r IH]; intros H; [reflexivity |].
  simpl. destruct (String.eqb_spec d x) as [-> | Hne].
  - exfalso. apply H. now left.
  - simpl. f_equal. apply IH. intros Hin. apply H. now right.
Qed.

(** [try: body finally: rmtree(d)] over a body that keeps the directories:
    what comes out is what the body gave, and [d] is the one directory that
    has gone. *)
Lemma try_finally_rmtree_dirs {A} (body : M A) (d : string) (w : World) :
  In d (w_dirs w) ->
  keeps_dirs body ->
  fst (try_finally body (rmtree d) w) = fst (body w)
  /\ w_dirs (snd (try_finally body (rmtree d) w)) = dirs_without d (w_dirs w).
Proof.
  intros Hin Hk. specialize (Hk w). unfold try_finally.
  destruct (body w) as [r w1]. simpl in Hk. unfold rmtree.
  rewrite Hk. apply str_in_In in Hin. rewrite Hin. now split.
Qed.

Lemma extractor_body_keeps_dirs (env : Env) (cmd : list string) (p id : string) :
  keeps_dirs (bind (check_call env cmd)
                (fun _ => bind (read_file p)
                            (fun xyt => ret {| m_image := id; m_xyt := xyt |}))).
Proof.
  apply bind_keeps_dirs; [intros w; apply check_call_dirs |].
  intros _. apply bind_keeps_dirs; [intros w; apply read_file_dirs |].
  intros xyt. apply ret_keeps_dirs.
Qed.

(** X1. The extractor removes its scratch directory, with all that is under
    it, however it ends: with a template, with a failing [mindtct], with a
    missing output file.  Of the directories it leaves exactly those that
    were there before, the name of the scratch directory apart. *)
Theorem X1_extractor_always_removes_scratch_directory
        (env : Env) (img : image) (w : World) :
  absent (scratch_dir w) (snd (mindtct_from_image env img w))
  /\ w_dirs (snd (mindtct_from_image env img w))
     = dirs_without (scratch_dir w) (w_dirs w).
Proof.
  unfold mindtct_from_image.
  rewrite (bind_ok _ _ _ _ _ (mkdtemp_creates w)).
  split.
  - apply try_finally_rmtree; [now left |]. apply extractor_body_keeps_dirs.
  - match goal with
    | |- w_dirs (snd (try_finally ?body (rmtree ?d) ?w1)) = _ =>
        destruct (try_finally_rmtree_dirs body d w1) as [_ Hd]
    end.
    + now left.
    + apply extractor_body_keeps_dirs.
    + rewrite Hd. cbn [w_dirs set_tmp set_dirs]. apply dirs_without_cons_same.
Qed.

(** X2. What the extractor returns is decided by [mindtct] alone: a
    template with the image's id and the whole content of [<scratch>/result.xyt]
    when [mindtct] exits with 0 and has written that file; [IOError] when it
    exits with 0 without the file; [CalledProcessError] with its exit status
    otherwise; [OSError] when it cannot be started.  Removing the scratch
    directory never changes this outcome. *)
Theorem X2_extractor_outcome (env : Env) (img : image) (w : World) :
  let cmd := extract_cmd (abspath env (p_filepath (img_path img))) (scratch_dir w) in
  fst (mindtct_from_image env img w)
  = match exec env cmd (w_files w) with
    | (CannotExec, _) => Raise (OSError "No such file or directory")
    | (Exited code out, fs) =>
        if code =? 0 then
          match lookup_file (join (scratch_dir w) "result" ++ ".xyt") fs with
          | Some xyt => Ok {| m_image := img_id img; m_xyt := xyt |}
          | None => Raise (IOError (join (scratch_dir w) "result" ++ ".xyt"))
          end
        else Raise (CalledProcessError code cmd)
    end.
Proof.
  cbv zeta. unfold mindtct_from_image.
  rewrite (bind_ok _ _ _ _ _ (mkdtemp_creates w)).
  match goal with
  | |- fst (try_finally ?body (rmtree ?d) ?w1) = _ =>
      destruct (try_finally_rmtree_dirs body d w1) as [Hf _]
  end.
  - now left.
  - apply extractor_body_keeps_dirs.
  - rewrite Hf. unfold extract_cmd, bind, check_call, bind, spawn.
    cbn [w_files set_tmp set_dirs].
    destruct (exec env _ (w_files w)) as [[| code out] fs]; [reflexivity |].
    cbn [fst]. destruct (code =? 0); [| reflexivity].
    cbn [ret]. unfold read_file. cbn [w_files set_files].
    now destruct (lookup_file _ fs).
Qed.

(** ** Stages and the result store *)

Lemma bind_keeps_store {A B} (c : M A) (k : A -> M B) :
  keeps_store c -> (forall a, keeps_store (k a)) -> keeps_store (bind c k).
Proof.
  intros Hc Hk w. unfold bind. specialize (Hc w).
  destruct (c w) as [[a | e] w1]; simpl in *; [| exact Hc].
  destruct (Hk a w1) as [H1 H2]. destruct Hc as [H3 H4]. split; congruence.
Qed.

Lemma ret_keeps_store {A} (a : A) : keeps_store (ret a).
Proof. intros w. now split. Qed.

Lemma raise_keeps_store {A} (e : exn) : keeps_store (@raise A e).
Proof. intros w. now split. Qed.

Lemma mkdtemp_keeps_store : keeps_store mkdtemp.
Proof. intros w. now split. Qed.

Lemma write_file_keeps_store (env : Env) (p c : string) : keeps_store (write_file env p c).
Proof. intros w. unfold write_file. now destruct (write_fails env p). Qed.

Lemma read_file_keeps_store (p : string) : keeps_store (read_file p).
Proof. intros w. unfold read_file. now destruct (lookup_file p (w_files w)). Qed.

Lemma spawn_keeps_store (env : Env) (cmd : list string) : keeps_store (spawn env cmd).
Proof.
  intros w. unfold spawn.
  now destruct (exec env cmd (w_files w)) as [[| code out] fs].
Qed.

Lemma check_call_keeps_store (env : Env) (cmd : list string) :
  keeps_store (check_call env cmd).
Proof.
  apply bind_keeps_store; [apply spawn_keeps_store |].
  intros r. destruct (fst r =? 0); [apply ret_keeps_store | apply raise_keeps_store].
Qed.

Lemma check_output_keeps_store (env : Env) (cmd : list string) :
  keeps_store (check_output env cmd).
Proof.
  apply bind_keeps_store; [apply spawn_keeps_store |].
  intros r. destruct (fst r =? 0); [apply ret_keeps_store | apply raise_keeps_store].
Qed.

Lemma rmtree_keeps_store (d : string) : keeps_store (rmtree d).
Proof. intros w. unfold rmtree. now destruct (str_in d (w_dirs w)). Qed.

Lemma try_finally_keeps_store {A} (body : M A) (fin : M unit) :
  keeps_store body -> keeps_store fin -> keeps_store (try_finally body fin).
Proof.
  intros Hb Hf w. unfold try_finally. specialize (Hb w).
  destruct (body w) as [r w1]. specialize (Hf w1).
  destruct (fin w1) as [[[] | e] w2]; simpl in *;
    destruct Hb, Hf; split; congruence.
Qed.

Lemma mindtct_from_image_keeps_store (env : Env) (img : image) :
  keeps_store (mindtct_from_image env img).
Proof.
  unfold mindtct_from_image.
  apply bind_keeps_store; [apply mkdtemp_keeps_store |]. intros d.
  apply try_finally_keeps_store; [| apply rmtree_keeps_store].
  apply bind_keeps_store; [apply check_call_keeps_store |]. intros _.
  apply bind_keeps_store; [apply read_file_keeps_store |]. intros xyt.
  apply ret_keeps_store.
Qed.

Lemma bozorth3_from_group_keeps_store (env : Env) (probe gallery : mindtct) :
  keeps_store (bozorth3_from_group env probe gallery).
Proof.
  unfold bozorth3_from_group.
  apply bind_keeps_store; [apply mkdtemp_keeps_store |]. intros d.
  apply bind_keeps_store; [apply write_file_keeps_store |]. intros _.
  apply bind_keeps_store; [apply write_file_keeps_store |]. intros _.
  apply try_finally_keeps_store; [| apply rmtree_keeps_store].
  apply bind_keeps_store; [apply check_output_keeps_store |]. intros out.
  destruct (int_of_str (strip out)); [apply ret_keeps_store | apply raise_keeps_store].
Qed.

Lemma write_xyt_keeps_store (env : Env) (p : string) (v : pyval) :
  keeps_store (write_xyt env p v).
Proof.
  destruct v; simpl; try apply write_file_keeps_store;
    (apply bind_keeps_store;
     [apply write_file_keeps_store | intros; apply raise_keeps_store]).
Qed.

Lemma write_galleries_keeps_store (env : Env) (fs : list string) (gs : list pyval) :
  keeps_store (write_galleries env fs gs).
Proof.
  revert gs. induction fs as [| f fs IH]; intros gs; [apply ret_keeps_store |].
  destruct gs as [| g gs]; [apply ret_keeps_store |].
  simpl. apply bind_keeps_store; [apply write_xyt_keeps_store | intros; apply IH].
Qed.

Lemma bozorth3_from_one_to_many_keeps_store
      (env : Env) (probe : mindtct) (galleryset : list pyval) :
  keeps_store (bozorth3_from_one_to_many env probe galleryset).
Proof.
  unfold bozorth3_from_one_to_many.
  apply bind_keeps_store; [apply mkdtemp_keeps_store |]. intros d.
  apply bind_keeps_store; [apply write_file_keeps_store |]. intros _.
  apply bind_keeps_store; [apply write_galleries_keeps_store |]. intros _.
  apply try_finally_keeps_store; [| apply rmtree_keeps_store].
  apply bind_keeps_store; [apply check_output_keeps_store |]. intros out.
  destruct (map_int (split_on LF (strip out))); [| apply raise_keeps_store].
  destruct (zip_results probe a galleryset);
    [apply ret_keeps_store | apply raise_keeps_store].
Qed.

Lemma run_keeps_store (env : Env) (g : option pyval) (input : bozorth3_input) :
  keeps_store (run env g input).
Proof.
  unfold run. destruct (in_gallery input);
    try (destruct g; apply raise_keeps_store).
  - apply bind_keeps_store; [apply bozorth3_from_group_keeps_store |].
    intros b. apply ret_keeps_store.
  - apply bind_keeps_store; [apply bozorth3_from_one_to_many_keeps_store |].
    intros b. apply ret_keeps_store.
Qed.

Lemma mapM_keeps_store {A B} (f : A -> M B) (l : list A) :
  (forall a, keeps_store (f a)) -> keeps_store (mapM f l).
Proof.
  intros Hf. induction l as [| x r IH]; [apply ret_keeps_store |].
  simpl. apply bind_keeps_store; [apply Hf |]. intros y.
  apply bind_keeps_store; [apply IH |]. intros ys. apply ret_keeps_store.
Qed.

(** X3. No extraction and no match request touches the result store or
    prints: whatever the executables do and however the call ends, the
    committed rows, the open transaction and the printed output are the same
    before and after.  So it is for a whole batch run through the pool. *)
Theorem X3_stages_never_touch_the_store (env : Env) :
  (forall img, keeps_store (mindtct_from_image env img))
  /\ (forall probe gallery, keeps_store (bozorth3_from_group env probe gallery))
  /\ (forall probe galleryset,
         keeps_store (bozorth3_from_one_to_many env probe galleryset))
  /\ (forall g inputs, keeps_store (pool_map (run_bozorth3 env g) inputs))
  /\ (forall images, keeps_store (pool_map (mindtct_from_image env) images)).
Proof.
  split; [apply mindtct_from_image_keeps_store |].
  split; [apply bozorth3_from_group_keeps_store |].
  split; [apply bozorth3_from_one_to_many_keeps_store |].
  split.
  - intros g inputs. apply mapM_keeps_store. intros a. apply run_keeps_store.
  - intros images. apply mapM_keeps_store. apply mindtct_from_image_keeps_store.
Qed.

(** ** The pairwise matcher *)

Lemma lookup_store_same (p c : string) (fs : files) :
  lookup_file p (store_file p c fs) = Some c.
Proof. unfold store_file. simpl. now rewrite String.eqb_refl. Qed.

Lemma lookup_store_other (p q c : string) (fs : files) :
  p <> q -> lookup_file p (store_file q c fs) = lookup_file p fs.
Proof.
  intros Hne. unfold store_file. simpl.
  apply String.eqb_neq in Hne. rewrite Hne.
  induction fs as [| [x y] r IH]; [reflexivity |].
  simpl. destruct (String.eqb_spec q x) as [-> | Hqx]; simpl.
  - now rewrite Hne.
  - now rewrite IH.
Qed.

Lemma append_inj_l (d a b : string) : d ++ a = d ++ b -> a = b.
Proof. induction d as [| c d IH]; simpl; [trivial |]. intros [= H]. now apply IH. Qed.

(** Two relative names are joined to a directory in the same way, so
    different names give different paths. *)
Lemma join_relative_inj (d a b : string) :
  startswith "/" a = false -> startswith "/" b = false ->
  join d a = join d b -> a = b.
Proof.
  unfold join. intros -> ->.
  destruct (is_empty d || endswith_char "/" d); intros H.
  - now apply append_inj_l in H.
  - apply append_inj_l in H. now injection H.
Qed.

(** X4. A pairwise request whose two scratch files can be written runs the
    scorer on its two file names, over files where they hold the payload of
    the probe and of the gallery template.  Its outcome is the scorer's: one
    result with the two image ids and [int] of the stripped output when the
    scorer exits with 0 and prints an integer ([42] for the output [42\n]);
    [ValueError] when the output is no integer; [CalledProcessError] for
    another exit status. *)
Theorem X4_pairwise_request_outcome
        (env : Env) (probe gallery : mindtct) (w : World) :
  write_fails env (join (scratch_dir w) "probe.xyt") = false ->
  write_fails env (join (scratch_dir w) "gallery.xyt") = false ->
  let probeFile := join (scratch_dir w) "probe.xyt" in
  let galleryFile := join (scratch_dir w) "gallery.xyt" in
  let fs := store_file galleryFile (m_xyt gallery)
              (store_file probeFile (m_xyt probe) (w_files w)) in
  lookup_file probeFile fs = Some (m_xyt probe)
  /\ lookup_file galleryFile fs = Some (m_xyt gallery)
  /\ fst (bozorth3_from_group env probe gallery w)
     = match exec env (pair_cmd (scratch_dir w)) fs with
       | (CannotExec, _) => Raise (OSError "No such file or directory")
       | (Exited code out, _) =>
           if code =? 0 then
             match int_of_str (strip out) with
             | Some score => Ok {| b_probe := m_image probe;
                                   b_gallery := m_image gallery;
                                   b_score := score |}
             | None => Raise (int_error (strip out))
             end
           else Raise (CalledProcessError code (pair_cmd (scratch_dir w)))
       end
  /\ int_of_str (strip ("42" ++ nl)) = Some 42.
Proof.
  intros Hp Hg probeFile galleryFile fs.
  split.
  { unfold fs. rewrite lookup_store_other; [apply lookup_store_same |].
    intros H. apply join_relative_inj in H; [discriminate H | reflexivity ..]. }
  split; [apply lookup_store_same |].
  split; [| reflexivity].
  unfold bozorth3_from_group.
  rewrite (bind_ok _ _ _ _ _ (mkdtemp_creates w)).
  rewrite (bind_ok _ _ _ _ _ (write_file_ok env _ _ _ Hp)).
  rewrite (bind_ok _ _ _ _ _ (write_file_ok env _ _ _ Hg)).
  match goal with
  | |- fst (try_finally ?body (rmtree ?d) ?w1) = _ =>
      destruct (try_finally_rmtree_dirs body d w1) as [Hf _]
  end.
  - now left.
  - apply match_body_keeps_dirs. intros s.
    destruct (int_of_str (strip s)); [apply ret_keeps_dirs | apply raise_keeps_dirs].
  - rewrite Hf. unfold pair_cmd, bind, check_output, bind, spawn.
    cbn [w_files set_tmp set_dirs set_files]. fold probeFile galleryFile fs.
    destruct (exec env _ fs) as [[| code out] fs']; [reflexivity |].
    cbn [fst snd]. destruct (code =? 0); [| reflexivity].
    cbn [ret]. now destruct (int_of_str (strip out)).
Qed.

Lemma X4_witness :
  fst (bozorth3_from_group (Demo.demo_env Demo.one_line_each) Demo.t0 Demo.t1 Demo.world0)
  = Ok {| b_probe := "id0"; b_gallery := "id1"; b_score := 42 |}.
Proof.
  destruct (X4_pairwise_request_outcome
              (Demo.demo_env Demo.one_line_each) Demo.t0 Demo.t1 Demo.world0
              eq_refl eq_refl) as [_ [_ [H _]]].
  exact H.
Defined.

(** ** Extensions *)

Lemma append_assoc (a b c : string) : ((a ++ b) ++ c = a ++ (b ++ c))%string.
Proof. induction a as [| x a IH]; simpl; [reflexivity | now rewrite IH]. Qed.

Lemma length_append (a b : string) :
  String.length (a ++ b) = (String.length a + String.length b)%nat.
Proof. induction a as [| x a IH]; simpl; [reflexivity | now rewrite IH]. Qed.

Lemma take_app_length (a b : string) : take (String.length a) (a ++ b) = a.
Proof. induction a as [| x a IH]; simpl; [reflexivity | now rewrite IH]. Qed.

Lemma rfind_from_lacks (c : ascii) (x : string) (i last : Z) :
  lacks c x = true -> rfind_from c x i last = last.
Proof.
  revert i last. induction x as [| y x IH]; intros i last H; [reflexivity |].
  simpl in H. apply andb_prop in H. destruct H as [Hy Hx].
  apply negb_true_iff in Hy. simpl. rewrite Hy. now apply IH.
Qed.

Lemma rfind_from_bounds (c : ascii) (s : string) (i last : Z) :
  last < i ->
  last <= rfind_from c s i last < i + Z.of_nat (String.length s)
  \/ (rfind_from c s i last = last /\ s = EmptyString).
Proof.
  revert i last. induction s as [| x r IH]; intros i last Hl; [now right |].
  left. cbn [rfind_from String.length].
  destruct (Ascii.eqb x c).
  - destruct (IH (i + 1) i) as [H | [H ->]]; [lia | lia | simpl in *; lia].
  - destruct (IH (i + 1) last) as [H | [H ->]]; [lia | lia | simpl in *; lia].
Qed.

Lemma get_app_length (a : string) (c : ascii) (b : string) :
  String.get (String.length a) (a ++ String c b) = Some c.
Proof. induction a as [| x a IH]; simpl; [reflexivity | exact IH]. Qed.

Lemma get_in_range (j : nat) (p : string) :
  (j < String.length p)%nat -> String.get j p <> None.
Proof.
  revert j. induction p as [| x p IH]; intros j H; [simpl in H; lia |].
  destruct j; simpl; [discriminate |]. apply IH. simpl in H. lia.
Qed.

(** The loop of [splitext] finds the character at [k] when it is no dot,
    if it finds none before. *)
Lemma splitext_loop_finds (p : string) (d : Z) (k : nat) (c : ascii)
      (fuel : nat) (i : Z) :
  String.get k p = Some c -> c <> "."%char ->
  0 <= i <= Z.of_nat k -> Z.of_nat k < d ->
  (Z.to_nat (Z.of_nat k - i) < fuel)%nat ->
  splitext_loop p i d fuel = Some (take (Z.to_nat d) p, drop (Z.to_nat d) p).
Proof.
  intros Hk Hc. revert i. induction fuel as [| f IH]; intros i Hi Hd Hf; [lia |].
  cbn [splitext_loop].
  replace (i <? d) with true by (symmetry; apply Z.ltb_lt; lia).
  destruct (String.get (Z.to_nat i) p) as [c' |] eqn:E.
  - destruct (Ascii.eqb_spec c' ".") as [-> | Hne]; [| reflexivity].
    cbn [negb].
    assert (i <> Z.of_nat k).
    { intros ->. rewrite Nat2Z.id in E. congruence. }
    apply IH; lia.
  - exfalso.
    assert (Hlen : (k < String.length p)%nat).
    { destruct (Nat.lt_ge_cases k (String.length p)) as [H | H]; [exact H |].
      exfalso. revert Hk. clear - H. revert k H.
      induction p as [| x p IHp]; intros k H; [now destruct k |].
      destruct k; [simpl in H; lia |]. simpl. apply IHp. simpl in H. lia. }
    apply (get_in_range (Z.to_nat i) p); [lia | exact E].
Qed.

(** [splitext] splits off a dotted extension that follows a name: for a
    stem that ends in a character other than the dot and the slash, and an
    extension [.x] where [x] has neither, [splitext(stem + '.x')] is
    [(stem, '.x')]. *)
Lemma splitext_stem_ext (s0 : string) (ch : ascii) (x : string) :
  ch <> "."%char -> ch <> "/"%char ->
  lacks "." x = true -> lacks "/" x = true ->
  splitext ((s0 ++ String ch EmptyString) ++ String "." x)
  = (s0 ++ String ch EmptyString, String "." x).
Proof.
  intros Hdot Hsl Hx1 Hx2.
  set (stem := s0 ++ String ch EmptyString).
  assert (Hlen : String.length stem = S (String.length s0)).
  { unfold stem. rewrite length_append. simpl. lia. }
  assert (Hrd : rfind "." (stem ++ String "." x) = Z.of_nat (String.length stem)).
  { unfold rfind. rewrite rfind_from_app. cbn [rfind_from Ascii.eqb Bool.eqb].
    now rewrite rfind_from_lacks. }
  assert (Hrs : rfind "/" (stem ++ String "." x) = rfind "/" s0).
  { unfold rfind, stem. rewrite append_assoc, rfind_from_app.
    cbn [append rfind_from].
    apply Ascii.eqb_neq in Hsl. rewrite Hsl. cbn [Ascii.eqb Bool.eqb].
    now rewrite rfind_from_lacks. }
  assert (Hb : -1 <= rfind "/" s0 < Z.of_nat (String.length s0)
               \/ (rfind "/" s0 = -1 /\ s0 = EmptyString)).
  { unfold rfind. apply rfind_from_bounds. lia. }
  assert (Hsep : -1 <= rfind "/" s0 < Z.of_nat (String.length stem)).
  { rewrite Hlen. destruct Hb as [H | [H _]]; lia. }
  assert (Hsep0 : rfind "/" s0 + 1 <= Z.of_nat (String.length s0)).
  { destruct Hb as [H | [H ->]]; [lia | rewrite H; simpl; lia]. }
  unfold splitext. rewrite Hrd, Hrs.
  replace (Z.of_nat (String.length stem) >? rfind "/" s0) with true
    by (symmetry; apply Z.gtb_lt; lia).
  rewrite (splitext_loop_finds (stem ++ String "." x) _ (String.length s0) ch).
  - rewrite Nat2Z.id. now rewrite take_app_length, drop_app_length.
  - unfold stem. rewrite append_assoc. apply get_app_length.
  - exact Hdot.
  - lia.
  - lia.
  - lia.
Qed.

(** X11. The image locator takes every record whose path is a name
    followed by [.png]: when the path ends in [.png] and the character
    before it is neither a dot nor a slash, the record passes the test and
    its image is in the output.  (A path such as [dir/.png], where nothing
    but dots stands between the last slash and [.png], has no extension
    and is left out.) *)
Theorem X11_locator_takes_a_name_with_png
        (paths : list Path) (r : Path) (s0 : string) (ch : ascii) :
  p_filepath r = (s0 ++ String ch EmptyString) ++ ".png" ->
  Ascii.eqb ch "." = false -> Ascii.eqb ch "/" = false ->
  In r paths ->
  extension r = ".png"
  /\ predicate r = true
  /\ In (image_of r) (locate_images paths)
  /\ predicate {| p_checksum := p_checksum r; p_filepath := s0 ++ "/.png" |} = false.
Proof.
  intros Hp Hdot Hsl Hin.
  apply Ascii.eqb_neq in Hdot, Hsl.
  assert (He : extension r = ".png").
  { unfold extension. rewrite Hp.
    change ".png" with (String "." "png") at 1.
    now rewrite splitext_stem_ext. }
  assert (Hpred : predicate r = true).
  { rewrite predicate_has_accepted_extension. unfold has_accepted_extension.
    now rewrite He. }
  split; [exact He |]. split; [exact Hpred |]. split.
  - apply locate_images_In. exists r. split; [exact Hin |]. split; [| reflexivity].
    now rewrite <- predicate_has_accepted_extension.
  - unfold predicate. cbn [p_filepath].
    assert (Hd : rfind "." (s0 ++ "/.png") = Z.of_nat (String.length s0) + 1).
    { unfold rfind. rewrite rfind_from_app. reflexivity. }
    assert (Hs : rfind "/" (s0 ++ "/.png") = Z.of_nat (String.length s0)).
    { unfold rfind. rewrite rfind_from_app. reflexivity. }
    unfold splitext. cbv zeta. rewrite Hd, Hs.
    replace (Z.of_nat (String.length s0) + 1 >? Z.of_nat (String.length s0))
      with true by (symmetry; apply Z.gtb_lt; lia).
    replace (Z.of_nat (String.length s0) + 1 - (Z.of_nat (String.length s0) + 1))
      with 0 by lia.
    reflexivity.
Qed.

Lemma X11_witness :
  predicate {| p_checksum := {| cs_value := "0a1b"; cs_kind := "md5" |};
               p_filepath := "data/f0001_01.png" |} = true.
Proof.
  refine (proj1 (proj2 (X11_locator_takes_a_name_with_png
            [{| p_checksum := {| cs_value := "0a1b"; cs_kind := "md5" |};
                p_filepath := "data/f0001_01.png" |}]
            {| p_checksum := {| cs_value := "0a1b"; cs_kind := "md5" |};
               p_filepath := "data/f0001_01.png" |}
            "data/f0001_0" "1" _ _ _ _))).
  - reflexivity.
  - reflexivity.
  - reflexivity.
  - left. reflexivity.
Defined.

(** ** The scratch files of a one-to-many request *)

Lemma append_inj_r (a b c : string) : a ++ c = b ++ c -> a = b.
Proof.
  revert b. induction a as [| x a IH]; intros b H.
  - destruct b as [| y b]; [reflexivity |].
    apply (f_equal String.length) in H. simpl in H.
    rewrite length_append in H. lia.
  - destruct b as [| y b].
    + apply (f_equal String.length) in H. simpl in H.
      rewrite length_append in H. lia.
    + simpl in H. injection H as -> H. f_equal. now apply IH.
Qed.

Lemma of_nat_inj (i j : nat) : of_nat i = of_nat j -> i = j.
Proof.
  unfold of_nat. intros H. apply DecimalNat.Unsigned.to_uint_inj.
  pose proof (NilEmpty.usu (Nat.to_uint i)) as Hi.
  pose proof (NilEmpty.usu (Nat.to_uint j)) as Hj.
  rewrite H in Hi. congruence.
Qed.

Lemma gallery_file_inj (d : string) (i j : nat) :
  gallery_file d i = gallery_file d j -> i = j.
Proof.
  unfold gallery_file. intros H.
  apply join_relative_inj in H; [| reflexivity | reflexivity].
  apply append_inj_l in H. apply append_inj_r in H. now apply of_nat_inj.
Qed.

Lemma gallery_file_not_probe (d : string) (i : nat) :
  join d "probe.xyt" <> gallery_file d i.
Proof.
  unfold gallery_file. intros H.
  apply join_relative_inj in H; [discriminate H | reflexivity | reflexivity].
Qed.

Lemma write_galleries_written (env : Env) (names : list string) (gs : list mindtct)
      (w : World) :
  (forall p, write_fails env p = false) ->
  write_galleries env names (map PMindtct gs) w
  = (Ok tt, set_files (written names gs (w_files w)) w).
Proof.
  intros Hw. revert gs w. induction names as [| n ns IH]; intros gs w.
  - cbn. now destruct w.
  - destruct gs as [| g gs]; [cbn; now destruct w |].
    cbn [map write_galleries write_xyt written].
    rewrite (bind_ok _ _ _ _ _ (write_file_ok env n (m_xyt g) w (Hw n))).
    rewrite IH. cbn [w_files set_files]. now destruct w.
Qed.

Lemma written_other (names : list string) (gs : list mindtct) (fs : files) (p : string) :
  ~ In p names -> lookup_file p (written names gs fs) = lookup_file p fs.
Proof.
  revert gs fs. induction names as [| n ns IH]; intros gs fs Hp; [reflexivity |].
  destruct gs as [| g gs]; [reflexivity |].
  cbn [written]. rewrite IH by (intros H; apply Hp; now right).
  apply lookup_store_other. intros ->. apply Hp. now left.
Qed.

Lemma written_nth (names : list string) (gs : list mindtct) (fs : files)
      (i : nat) (n : string) (g : mindtct) :
  NoDup names ->
  nth_error names i = Some n -> nth_error gs i = Some g ->
  lookup_file n (written names gs fs) = Some (m_xyt g).
Proof.
  revert gs fs i. induction names as [| n0 ns IH]; intros gs fs i Hnd Hn Hg;
    [now destruct i |].
  destruct gs as [| g0 gs]; [now destruct i |].
  inversion Hnd as [| ? ? Hnotin Hnd']; subst.
  cbn [written]. destruct i as [| i]; cbn [nth_error] in Hn, Hg.
  - injection Hn as ->. injection Hg as ->.
    rewrite written_other by exact Hnotin. apply lookup_store_same.
  - now apply (IH gs _ i).
Qed.

Lemma nth_error_seq_lt (s n i : nat) :
  (i < n)%nat -> nth_error (seq s n) i = Some (s + i)%nat.
Proof.
  revert s i. induction n as [| n IH]; intros s i H; [lia |].
  destruct i as [| i]; cbn [seq nth_error]; [f_equal; lia |].
  rewrite IH by lia. f_equal. lia.
Qed.

Lemma NoDup_map_inj {A B} (f : A -> B) (l : list A) :
  (forall x y, f x = f y -> x = y) -> NoDup l -> NoDup (map f l).
Proof.
  intros Hf. induction 1 as [| x l Hx _ IH]; cbn [map]; constructor; [| exact IH].
  intros H. apply in_map_iff in H. destruct H as [y [E Hy]].
  apply Hf in E. now subst.
Qed.

Lemma gallery_files_NoDup (d : string) (n : nat) :
  NoDup (map (gallery_file d) (seq 0 n)).
Proof.
  apply NoDup_map_inj; [| apply seq_NoDup].
  intros i j. apply gallery_file_inj.
Qed.

(** ** The one-to-many matcher *)

(** The scratch files hold the input of the request. *)
Lemma scratch_files_hold (probe : mindtct) (gallery : list mindtct) (w : World) :
  holds_request (scratch_dir w) probe gallery (scratch_files probe gallery w).
Proof.
  unfold holds_request, scratch_files.
  set (d := scratch_dir w).
  set (names := map (gallery_file d) (seq 0 (List.length gallery))).
  assert (Hprobe_notin : ~ In (join d "probe.xyt") names).
  { unfold names. intros H. apply in_map_iff in H. destruct H as [i [H _]].
    symmetry in H. now apply gallery_file_not_probe in H. }
  split.
  - rewrite written_other by exact Hprobe_notin. apply lookup_store_same.
  - intros i g Hg. apply (written_nth names gallery _ i).
    + apply gallery_files_NoDup.
    + unfold names. apply map_nth_error.
      rewrite nth_error_seq_lt; [reflexivity |].
      apply nth_error_Some. congruence.
    + exact Hg.
Qed.

(** Once its scratch files are written, a one-to-many request is its
    [try] block run in a world where the scratch directory exists and the
    files are the scratch files. *)
Lemma one_to_many_after_writes
      (env : Env) (probe : mindtct) (gallery : list mindtct) (w : World) :
  (forall p, write_fails env p = false) ->
  exists w2,
    w_dirs w2 = scratch_dir w :: w_dirs w
    /\ w_files w2 = scratch_files probe gallery w
    /\ bozorth3_from_one_to_many env probe (map PMindtct gallery) w
       = try_finally
           (one_to_many_try env (one_to_many_cmd (scratch_dir w) (List.length gallery))
              probe (map PMindtct gallery))
           (rmtree (scratch_dir w)) w2.
Proof.
  intros Hw. unfold bozorth3_from_one_to_many.
  rewrite (bind_ok _ _ _ _ _ (mkdtemp_creates w)).
  rewrite (bind_ok _ _ _ _ _ (write_file_ok env _ _ _ (Hw _))).
  rewrite length_map.
  change (map (fun i => join (scratch_dir w) ("gallery" ++ of_nat i ++ ".xyt"))
              (seq 0 (List.length gallery)))
    with (map (gallery_file (scratch_dir w)) (seq 0 (List.length gallery))).
  rewrite (bind_ok _ _ _ _ _
             (write_galleries_written env
                (map (gallery_file (scratch_dir w)) (seq 0 (List.length gallery)))
                gallery _ Hw)).
  eexists. split; [| split; [| reflexivity]]; reflexivity.
Qed.

Lemma one_to_many_try_keeps_dirs (env : Env) (cmd : list string)
      (probe : mindtct) (galleryset : list pyval) :
  keeps_dirs (one_to_many_try env cmd probe galleryset).
Proof. apply one_to_many_body_keeps_dirs. Qed.

(** The outcome of a one-to-many request whose scorer, run on the scratch
    files, exits with 0: the results for the integers it prints, or the
    error of [int]. *)
Lemma one_to_many_outcome (env : Env) (probe : mindtct) (gallery : list mindtct)
      (w : World) (out : string) :
  (forall p, write_fails env p = false) ->
  fst (exec env (one_to_many_cmd (scratch_dir w) (List.length gallery))
         (scratch_files probe gallery w))
  = Exited 0 out ->
  fst (bozorth3_from_one_to_many env probe (map PMindtct gallery) w)
  = match map_int (split_on LF (strip out)) with
    | Ok scores => Ok (map (result_of probe) (combine scores gallery))
    | Raise e => Raise e
    end.
Proof.
  intros Hw Hexec.
  destruct (one_to_many_after_writes env probe gallery w Hw) as [w2 [Hd [Hfs ->]]].
  match goal with
  | |- fst (try_finally ?body (rmtree ?d) w2) = _ =>
      destruct (try_finally_rmtree_dirs body d w2) as [Hf _]
  end.
  - rewrite Hd. now left.
  - apply one_to_many_try_keeps_dirs.
  - rewrite Hf. unfold one_to_many_try.
    rewrite <- Hfs in Hexec.
    pose proof (check_output_ok env _ w2 out Hexec) as Hout.
    destruct (check_output env
                (one_to_many_cmd (scratch_dir w) (List.length gallery)) w2)
      as [r w3] eqn:E3.
    simpl in Hout. subst r. rewrite (bind_ok _ _ _ _ _ E3).
    destruct (map_int (split_on LF (strip out))) as [scores | e]; [| reflexivity].
    now rewrite zip_results_templates.
Qed.

(** The results of a one-to-many request whose scorer, run on the scratch
    files, prints integers. *)
Lemma one_to_many_scored (env : Env) (probe : mindtct) (gallery : list mindtct)
      (w : World) (out : string) (scores : list Z) :
  (forall p, write_fails env p = false) ->
  fst (exec env (one_to_many_cmd (scratch_dir w) (List.length gallery))
         (scratch_files probe gallery w))
  = Exited 0 out ->
  map_int (split_on LF (strip out)) = Ok scores ->
  fst (bozorth3_from_one_to_many env probe (map PMindtct gallery) w)
  = Ok (map (result_of probe) (combine scores gallery)).
Proof.
  intros Hw Hexec Hparse.
  now rewrite (one_to_many_outcome env probe gallery w out Hw Hexec), Hparse.
Qed.

(** C1. For every one-to-many request over the gallery [g0..g(N-1)]: when
    the output of the scorer, run on the scratch files of the request,
    parses as [N] integers [s0..s(N-1)], one per line, the matcher returns
    exactly [N] results, and result [i] has the probe's image id, the image
    id of [gi] and the score [si].  The scratch files are the files of the
    world with the payloads of the probe and of each gallery template written
    under their names.  The output [5\n12\n0] parses as the scores 5, 12
    and 0 in that order. *)
Theorem C1_one_to_many_results_follow_gallery_order
        (env : Env) (w : World) (probe : mindtct) (gallery : list mindtct)
        (out : string) (scores : list Z) :
  (forall p, write_fails env p = false) ->
  fst (exec env (one_to_many_cmd (scratch_dir w) (List.length gallery))
         (scratch_files probe gallery w))
  = Exited 0 out ->
  map_int (split_on LF (strip out)) = Ok scores ->
  List.length scores = List.length gallery ->
  let results := map (result_of probe) (combine scores gallery) in
  fst (bozorth3_from_one_to_many env probe (map PMindtct gallery) w) = Ok results
  /\ List.length results = List.length gallery
  /\ (forall i g s,
        nth_error gallery i = Some g -> nth_error scores i = Some s ->
        nth_error results i
        = Some {| b_probe := m_image probe; b_gallery := m_image g; b_score := s |})
  /\ holds_request (scratch_dir w) probe gallery (scratch_files probe gallery w)
  /\ map_int (split_on LF (strip ("5" ++ nl ++ "12" ++ nl ++ "0"))) = Ok [5; 12; 0].
Proof.
  intros Hw Hexec Hparse Hlen results.
  split; [| split; [| split; [| split]]].
  - now apply (one_to_many_scored env probe gallery w out scores).
  - unfold results. now rewrite length_map, length_combine, Hlen, Nat.min_id.
  - intros i g s Hg Hs. unfold results.
    change {| b_probe := m_image probe; b_gallery := m_image g; b_score := s |}
      with (result_of probe (s, g)).
    apply (map_nth_error (result_of probe)). now apply nth_error_combine.
  - apply scratch_files_hold.
  - reflexivity.
Qed.

Lemma C1_witness :
  fst (bozorth3_from_one_to_many DemoScorer.reading_env Demo.t0
         [PMindtct DemoScorer.g5; PMindtct DemoScorer.g12; PMindtct DemoScorer.g0]
         Demo.world0)
  = Ok [ {| b_probe := "id0"; b_gallery := "id1"; b_score := 5 |};
         {| b_probe := "id0"; b_gallery := "id2"; b_score := 12 |};
         {| b_probe := "id0"; b_gallery := "id3"; b_score := 0 |} ].
Proof.
  refine (proj1 (C1_one_to_many_results_follow_gallery_order
                   DemoScorer.reading_env Demo.world0 Demo.t0
                   [DemoScorer.g5; DemoScorer.g12; DemoScorer.g0]
                   ("5" ++ nl ++ "12" ++ nl ++ "0" ++ nl) [5; 12; 0] _ _ _ _));
    reflexivity.
Defined.

(** X5. A matcher whose scratch files can be written removes its scratch
    directory, with the files in it, however the scorer and the parsing of
    its output end; the other directories are left as they were.  This
    holds for the pairwise and for the one-to-many matcher. *)
Theorem X5_matchers_remove_scratch_directory_after_writes
        (env : Env) (probe gallery : mindtct) (galleryset : list mindtct) (w : World) :
  (forall p, write_fails env p = false) ->
  absent (scratch_dir w) (snd (bozorth3_from_group env probe gallery w))
  /\ w_dirs (snd (bozorth3_from_group env probe gallery w))
     = dirs_without (scratch_dir w) (w_dirs w)
  /\ absent (scratch_dir w)
            (snd (bozorth3_from_one_to_many env probe (map PMindtct galleryset) w))
  /\ w_dirs (snd (bozorth3_from_one_to_many env probe (map PMindtct galleryset) w))
     = dirs_without (scratch_dir w) (w_dirs w).
Proof.
  intros Hw.
  split; [apply bozorth3_from_group_cleans_up; apply Hw |].
  split.
  { unfold bozorth3_from_group.
    rewrite (bind_ok _ _ _ _ _ (mkdtemp_creates w)).
    rewrite (bind_ok _ _ _ _ _ (write_file_ok env _ _ _ (Hw _))).
    rewrite (bind_ok _ _ _ _ _ (write_file_ok env _ _ _ (Hw _))).
    match goal with
    | |- w_dirs (snd (try_finally ?body (rmtree ?d) ?w1)) = _ =>
        destruct (try_finally_rmtree_dirs body d w1) as [_ Hd]
    end.
    - now left.
    - apply match_body_keeps_dirs. intros s.
      destruct (int_of_str (strip s)); [apply ret_keeps_dirs | apply raise_keeps_dirs].
    - rewrite Hd. cbn [w_dirs set_tmp set_dirs set_files].
      apply dirs_without_cons_same. }
  split; [now apply bozorth3_from_one_to_many_cleans_up |].
  destruct (one_to_many_after_writes env probe galleryset w Hw) as [w2 [Hd [_ ->]]].
  match goal with
  | |- w_dirs (snd (try_finally ?body (rmtree ?d) w2)) = _ =>
      destruct (try_finally_rmtree_dirs body d w2) as [_ Hd']
  end.
  - rewrite Hd. now left.
  - apply one_to_many_try_keeps_dirs.
  - rewrite Hd', Hd. apply dirs_without_cons_same.
Qed.

Lemma X5_witness :
  w_dirs (snd (bozorth3_from_one_to_many (Demo.demo_env Demo.scores_5_12_0) Demo.t0
                 (map PMindtct [Demo.t1; Demo.t2; Demo.t3]) Demo.world0))
  = dirs_without (scratch_dir Demo.world0) (w_dirs Demo.world0).
Proof.
  destruct (X5_matchers_remove_scratch_directory_after_writes
              (Demo.demo_env Demo.scores_5_12_0) Demo.t0 Demo.t1
              [Demo.t1; Demo.t2; Demo.t3] Demo.world0 (fun p => eq_refl))
    as [_ [_ [_ H]]].
  exact H.
Defined.

(** X6. A one-to-many request does not compare the number of scores with
    the number of gallery templates: the scores that the scorer, run on the
    scratch files of the request, prints are paired with the gallery from the
    front, and what is left over on either side is dropped without an error.
    So the request returns as many results as the shorter of the two has
    elements. *)
Theorem X6_one_to_many_pairs_up_to_the_shorter
        (env : Env) (w : World) (probe : mindtct) (gallery : list mindtct)
        (out : string) (scores : list Z) :
  (forall p, write_fails env p = false) ->
  fst (exec env (one_to_many_cmd (scratch_dir w) (List.length gallery))
         (scratch_files probe gallery w))
  = Exited 0 out ->
  map_int (split_on LF (strip out)) = Ok scores ->
  exists results,
    fst (bozorth3_from_one_to_many env probe (map PMindtct gallery) w) = Ok results
    /\ List.length results = Nat.min (List.length scores) (List.length gallery)
    /\ map b_score results = firstn (List.length gallery) scores
    /\ map b_gallery results = map m_image (firstn (List.length scores) gallery).
Proof.
  intros Hw Hexec Hparse.
  exists (map (result_of probe) (combine scores gallery)).
  split; [now apply (one_to_many_scored env probe gallery w out scores) |].
  split; [now rewrite length_map, length_combine |].
  clear. revert gallery. induction scores as [| s ss IH]; intros gallery.
  - cbn. now rewrite firstn_nil.
  - destruct gallery as [| g gs]; [now split |].
    cbn [combine map firstn List.length result_of b_score b_gallery fst snd].
    destruct (IH gs) as [H1 H2]. now rewrite H1, H2.
Qed.

Lemma X6_witness :
  exists results,
    fst (bozorth3_from_one_to_many (Demo.demo_env Demo.scores_5_12_0) Demo.t0
           (map PMindtct [Demo.t1; Demo.t2; Demo.t3; Demo.t0; Demo.t1]) Demo.world0)
    = Ok results
    /\ List.length results = 3%nat
    /\ map b_score results = [5; 12; 0]
    /\ map b_gallery results = ["id1"; "id2"; "id3"].
Proof.
  exact (X6_one_to_many_pairs_up_to_the_shorter
           (Demo.demo_env Demo.scores_5_12_0) Demo.world0 Demo.t0
           [Demo.t1; Demo.t2; Demo.t3; Demo.t0; Demo.t1]
           ("5" ++ nl ++ "12" ++ nl ++ "0") [5; 12; 0]
           (fun p => eq_refl) eq_refl eq_refl).
Defined.

(** ** The sampler at its bounds *)



(** X8. When the sample size is the size of the population, the sample is
    the whole population in some order: every template is drawn, each as
    often as the population has it. *)
Theorem X8_full_sample_is_the_population_rearranged
        (env : Env) (population : list mindtct) (perc : float) (w : World) :
  (forall c m, (0 < m)%nat -> (draw env c m < m)%nat) ->
  sample_size perc (List.length population) = Ok (Z.of_nat (List.length population)) ->
  exists sample w',
    sampler env population perc w = (Ok sample, w')
    /\ Permutation sample population.
Proof.
  intros Hdraw Hk.
  destruct (sampler_selects env population perc _ w Hdraw Hk)
    as [sample [rest [w' [Hrun [Hl [Hperm _]]]]]]; [lia |].
  exists sample, w'. split; [exact Hrun |].
  assert (Hrest : rest = []).
  { apply Permutation_length in Hperm. rewrite length_app in Hperm.
    apply Nat2Z.inj in Hl. destruct rest; [reflexivity | simpl in Hperm; lia]. }
  subst rest. now rewrite app_nil_r in Hperm.
Qed.

Lemma X8_witness :
  exists sample w',
    sampler (Demo.demo_env Demo.one_line_each) (Demo.templates 4) Demo.one Demo.world0
    = (Ok sample, w')
    /\ Permutation sample (Demo.templates 4).
Proof.
  refine (X8_full_sample_is_the_population_rearranged
            (Demo.demo_env Demo.one_line_each) (Demo.templates 4) Demo.one
            Demo.world0 _ _).
  - intros c m H. exact H.
  - reflexivity.
Defined.


(** ** Dataset provider *)

Lemma endswith_char_app (c : ascii) (a : string) :
  endswith_char c a = true -> exists a0, a = a0 ++ String c EmptyString.
Proof.
  induction a as [| x a IH]; [discriminate |].
  destruct a as [| y a'].
  - simpl. intros H. apply Ascii.eqb_eq in H. subst. now exists EmptyString.
  - intros H. change (endswith_char c (String y a') = true) in H.
    destruct (IH H) as [a0 ->]. now exists (String x a0).
Qed.

(** The local path of the dataset archive, less [.zip], is the dataset
    directory. *)
Lemma splitext_dataset_archive (prefix : string) :
  splitext (join prefix (dataset_name ++ ".zip")) = (join prefix dataset_name, ".zip").
Proof.
  assert (H : forall d : string,
             splitext (d ++ (dataset_name ++ ".zip")) = (d ++ dataset_name, ".zip")).
  { intros d.
    replace (d ++ (dataset_name ++ ".zip"))
      with (((d ++ "NISTSpecialDatabase4GrayScaleImagesofFIG") ++ String "S" EmptyString)
              ++ String "." "zip")
      by (rewrite !append_assoc; reflexivity).
    replace (d ++ dataset_name)
      with ((d ++ "NISTSpecialDatabase4GrayScaleImagesofFIG") ++ String "S" EmptyString)
      by (rewrite append_assoc; reflexivity).
    apply splitext_stem_ext; [discriminate | discriminate | reflexivity | reflexivity]. }
  unfold join.
  assert (Hs : startswith "/" (dataset_name ++ ".zip") = false) by reflexivity.
  assert (Hs' : startswith "/" dataset_name = false) by reflexivity.
  rewrite Hs, Hs'.
  destruct (is_empty prefix || endswith_char "/" prefix); [apply H |].
  specialize (H (prefix ++ "/")). rewrite !append_assoc in H. exact H.
Qed.

Lemma basename_dataset_url :
  basename DATASET_URL = dataset_name ++ ".zip".
Proof. reflexivity. Qed.

(** A dry run of [fetch_url] makes sure that the prefix exists and
    computes the local path; it does nothing else.  The prefix is created
    when it is missing, and an error of [os.makedirs] ends the call. *)
Lemma fetch_url_dry_run (env : Env) (remote : Remote)
      (url sha256 prefix : string) (blocksize : Z) (w : World) :
  fetch_url env remote url sha256 prefix blocksize true w
  = if path_exists prefix w then (Ok (join prefix (basename url)), w)
    else match makedirs_os remote prefix (w_dirs w) (w_files w) with
         | (None, created) =>
             (Ok (join prefix (basename url)), set_dirs (created ++ w_dirs w)%list w)
         | (Some what, created) =>
             (Raise (OSError what), set_dirs (created ++ w_dirs w)%list w)
         end.
Proof.
  unfold fetch_url, bind, ret, makedirs.
  destruct (path_exists prefix w); cbn [negb]; [reflexivity |].
  destruct (makedirs_os remote prefix (w_dirs w) (w_files w)) as [[what |] created];
    reflexivity.
Qed.

(** [prepare_dataset] as the script calls it, with [skip=True] and the
    default URL. *)
Lemma prepare_dataset_skip (env : Env) (remote : Remote) (prefix : string) (w : World) :
  prepare_dataset env remote None None prefix true w
  = if path_exists prefix w then (Ok (join prefix dataset_name), w)
    else match makedirs_os remote prefix (w_dirs w) (w_files w) with
         | (None, created) =>
             (Ok (join prefix dataset_name), set_dirs (created ++ w_dirs w)%list w)
         | (Some what, created) =>
             (Raise (OSError what), set_dirs (created ++ w_dirs w)%list w)
         end.
Proof.
  unfold prepare_dataset, bind at 1. rewrite fetch_url_dry_run.
  rewrite basename_dataset_url.
  destruct (path_exists prefix w).
  - cbn [negb]. unfold bind, ret. now rewrite splitext_dataset_archive.
  - destruct (makedirs_os remote prefix (w_dirs w) (w_files w)) as [[what |] created];
      [reflexivity |].
    cbn [negb]. unfold bind, ret. now rewrite splitext_dataset_archive.
Qed.

(** X12. As the script calls it, with [skip=True] and the default URL,
    [prepare_dataset] downloads, reads, verifies and extracts nothing: the
    files, the store and the printed results are untouched.  For a prefix
    that exists it returns the dataset directory
    [<prefix>/NISTSpecialDatabase4GrayScaleImagesofFIGS] and changes
    nothing.  For a prefix that is missing it calls [os.makedirs(prefix)]:
    when that succeeds it returns the dataset directory, when that fails the
    [OSError] ends the call; either way the directories are those from
    before and those the call created.  On a file system where only the
    shape of the tree can make [os.makedirs] fail, the empty prefix and a
    prefix below a regular file end in [OSError]. *)
Theorem X12_prepare_dataset_skip_returns_the_dataset_directory
        (env : Env) (remote : Remote) (prefix : string) (w : World) :
  let r := prepare_dataset env remote None None prefix true w in
  (path_exists prefix w = true -> r = (Ok (join prefix dataset_name), w))
  /\ (path_exists prefix w = false ->
      fst r = match fst (makedirs_os remote prefix (w_dirs w) (w_files w)) with
              | None => Ok (join prefix dataset_name)
              | Some what => Raise (OSError what)
              end)
  /\ w_dirs (snd r) = (prefix_dirs remote prefix w ++ w_dirs w)%list
  /\ w_files (snd r) = w_files w
  /\ w_db (snd r) = w_db w
  /\ w_printed (snd r) = w_printed w
  /\ fst (prepare_dataset env DemoRemote.remote None None "" true Demo.world_manifest)
     = Raise (OSError "No such file or directory")
  /\ fst (prepare_dataset env DemoRemote.remote None None "md5.txt/sub" true
            Demo.world_manifest)
     = Raise (OSError "Not a directory")
  /\ prepare_dataset env DemoRemote.remote None None "data/sd4" true Demo.world_manifest
     = (Ok "data/sd4/NISTSpecialDatabase4GrayScaleImagesofFIGS",
        set_dirs ["data/sd4"; "data"; "/tmp"] Demo.world_manifest).
Proof.
  cbv zeta. rewrite !prepare_dataset_skip. unfold prefix_dirs.
  split; [now intros -> |].
  split.
  { intros ->.
    now destruct (makedirs_os remote prefix (w_dirs w) (w_files w)) as [[what |] created]. }
  split; [| split; [| split; [| split]]];
    try (destruct (path_exists prefix w); [reflexivity |];
         now destruct (makedirs_os remote prefix (w_dirs w) (w_files w))
           as [[what |] created]).
  repeat split.
Qed.

(** ** Checksum of a cached download *)









(** X15. [fetch_url] does not verify what it downloads.  When the local
    file is missing and the download succeeds, the call returns the local
    path with the served bytes stored there, whatever digest was expected:
    the expected digest is only ever compared with a file that was there
    before the call. *)
Theorem X15_fetch_url_accepts_any_download
        (env : Env) (remote : Remote) (url sha256 prefix c : string)
        (blocksize : Z) (w : World) :
  path_exists prefix w = true ->
  path_exists (join prefix (basename url)) w = false ->
  served remote url = Some c ->
  write_fails env (join prefix (basename url)) = false ->
  let r := fetch_url env remote url sha256 prefix blocksize false w in
  fst r = Ok (join prefix (basename url))
  /\ lookup_file (join prefix (basename url)) (w_files (snd r)) = Some c
  /\ w_dirs (snd r) = w_dirs w.
Proof.
  intros Hp Hl Hs Hw. cbv zeta.
  assert (E : fetch_url env remote url sha256 prefix blocksize false w
              = (Ok (join prefix (basename url)),
                 set_files (store_file (join prefix (basename url)) c (w_files w)) w)).
  { unfold fetch_url, bind, ret. rewrite Hp. cbn [negb]. rewrite Hl.
    unfold urlretrieve. rewrite Hs. unfold write_file. now rewrite Hw. }
  rewrite E. cbn [fst snd w_files set_files w_dirs].
  split; [reflexivity |]. split; [apply lookup_store_same | reflexivity].
Qed.

Lemma X15_witness :
  DemoRemote.toy_digest "zip bytes" <> DATASET_SHA256
  /\ fst (fetch_url (Demo.demo_env Demo.one_line_each) DemoRemote.remote DATASET_URL
            DATASET_SHA256 "data" (2 ^ 20) false DemoRemote.world_empty)
     = Ok "data/NISTSpecialDatabase4GrayScaleImagesofFIGS.zip".
Proof.
  split; [intros H; discriminate H |].
  refine (proj1 (X15_fetch_url_accepts_any_download
                   (Demo.demo_env Demo.one_line_each) DemoRemote.remote DATASET_URL
                   DATASET_SHA256 "data" "zip bytes" (2 ^ 20)
                   DemoRemote.world_empty _ _ _ _));
    reflexivity.
Defined.

(** ** The script and the committed rows *)

Lemma keeps_extends {A} (c : M A) : keeps_store c -> extends_store c.
Proof.
  intros H w. destruct (H w) as [Hdb _]. exists []. rewrite Hdb, app_nil_r. now split.
Qed.

Lemma bind_extends_store {A B} (c : M A) (k : A -> M B) :
  extends_store c -> (forall a, extends_store (k a)) -> extends_store (bind c k).
Proof.
  intros Hc Hk w. unfold bind. destruct (Hc w) as [a1 [H1 T1]].
  destruct (c w) as [[a | e] w1]; simpl in *; [| now exists a1].
  destruct (Hk a w1) as [a2 [H2 T2]].
  exists (a1 ++ a2)%list. rewrite H2, H1, app_assoc. split; [reflexivity | auto].
Qed.

Lemma executemany_extends (vals : list row) : extends_store (executemany_insert vals).
Proof.
  intros w. exists []. unfold executemany_insert.
  destruct (db_has_table (w_db w)) eqn:E;
    [destruct (insert_rows (db_pending (w_db w)) vals) as [r pending] |];
    cbn; rewrite app_nil_r; (split; [reflexivity | intros H; congruence]).
Qed.

Lemma commit_extends : extends_store commit.
Proof.
  intros w. exists (db_pending (w_db w)). cbn.
  split; [reflexivity | intros H; exact H].
Qed.

Lemma print_all_extends (g : list bozorth3) : extends_store (print_all g).
Proof.
  intros w. exists []. cbn. rewrite app_nil_r.
  split; [reflexivity | intros H; exact H].
Qed.

Lemma conn_close_extends : extends_store conn_close.
Proof.
  intros w. exists []. cbn. rewrite app_nil_r.
  split; [reflexivity | intros H; exact H].
Qed.

Lemma store_groups_extends (l : list matched) : extends_store (store_groups l).
Proof.
  induction l as [| [b | g] l IH].
  - apply keeps_extends, ret_keeps_store.
  - apply keeps_extends, raise_keeps_store.
  - cbn [store_groups].
    apply bind_extends_store; [apply executemany_extends |]. intros _.
    apply bind_extends_store; [apply commit_extends |]. intros _.
    apply bind_extends_store; [apply print_all_extends |]. intros _. exact IH.
Qed.

Lemma sample_loop_keeps_store (env : Env) {A} (k : nat) (pool : list A) :
  keeps_store (sample_loop env pool k).
Proof.
  revert pool. induction k as [| k IH]; intros pool; [apply ret_keeps_store |].
  cbn [sample_loop]. apply bind_keeps_store; [intros w; now split |].
  intros j. destruct (nth_error pool j); [| apply raise_keeps_store].
  apply bind_keeps_store; [apply IH |]. intros r. apply ret_keeps_store.
Qed.

Lemma sampler_keeps_store (env : Env) (mindtcts : list mindtct) (perc : float) :
  keeps_store (sampler env mindtcts perc).
Proof.
  unfold sampler. apply bind_keeps_store.
  - destruct (sample_size perc (List.length mindtcts));
      [apply ret_keeps_store | apply raise_keeps_store].
  - intros k. unfold random_sample.
    destruct ((0 <=? k) && (k <=? Z.of_nat (List.length mindtcts)));
      [apply sample_loop_keeps_store | apply raise_keeps_store].
Qed.

Lemma locate_paths_keeps_store (path prefix : string) :
  keeps_store (locate_paths path prefix).
Proof.
  unfold locate_paths. apply bind_keeps_store; [apply read_file_keeps_store |].
  intros c. destruct (locate_paths_lines prefix (file_lines c));
    [apply ret_keeps_store | apply raise_keeps_store].
Qed.

Lemma sample_and_match_extends (env : Env) (mindtcts : list mindtct)
      (perc_probe perc_gallery : float) :
  extends_store (sample_and_match env mindtcts perc_probe perc_gallery).
Proof.
  unfold sample_and_match.
  apply bind_extends_store; [apply keeps_extends, sampler_keeps_store |]. intros probes.
  apply bind_extends_store; [apply keeps_extends, sampler_keeps_store |]. intros gallery.
  apply bind_extends_store.
  { apply keeps_extends. apply mapM_keeps_store. intros a. apply run_keeps_store. }
  intros groups.
  apply bind_extends_store; [apply store_groups_extends |]. intros _.
  apply conn_close_extends.
Qed.

(** X16. A run of the script never removes or changes a row that was
    committed before it: however the run ends (missing manifest, failing
    extractor or scorer, bad fraction, completion), the committed rows
    afterwards are those from before with rows added at the end; and the
    table [bozorth3] exists afterwards. *)
Theorem X16_script_only_appends_committed_rows
        (env : Env) (dataprefix md5listpath : string)
        (perc_probe perc_gallery : float) (w : World) :
  exists added,
    db_durable (w_db (snd (main env dataprefix md5listpath perc_probe perc_gallery w)))
    = (db_durable (w_db w) ++ added)%list
    /\ db_has_table
         (w_db (snd (main env dataprefix md5listpath perc_probe perc_gallery w)))
       = true.
Proof.
  unfold main.
  unfold bind at 1. unfold sqlite3_connect at 1.
  unfold bind at 1. unfold create_table at 1.
  match goal with
  | |- context [bind (locate_paths ?p ?q) ?k ?w1] =>
      assert (H : extends_store (bind (locate_paths p q) k));
        [| destruct (H w1) as [added [Hd Ht]]; exists added ]
  end.
  - apply bind_extends_store; [apply keeps_extends, locate_paths_keeps_store |].
    intros paths.
    apply bind_extends_store.
    { apply keeps_extends. apply mapM_keeps_store.
      apply mindtct_from_image_keeps_store. }
    intros mindtcts. apply sample_and_match_extends.
  - split; [| apply Ht; reflexivity].
    rewrite Hd. cbn. now rewrite app_nil_r.
Qed.

(** ** The tokens of the manifest *)

Lemma split_ws_aux_tokens (s cur : string) :
  (forall c, In c (list_ascii_of_string cur) -> is_space c = false) ->
  Forall is_token (split_ws_aux cur s).
Proof.
  revert cur. induction s as [| c r IH]; intros cur Hcur.
  - cbn [split_ws_aux]. destruct cur as [| x cur']; cbn [is_empty]; constructor.
    + split; [discriminate | exact Hcur].
    + constructor.
  - cbn [split_ws_aux]. destruct (is_space c) eqn:Hc.
    + destruct cur as [| x cur']; cbn [is_empty].
      * apply IH. intros a [].
      * constructor; [split; [discriminate | exact Hcur] |].
        apply IH. intros a [].
    + apply IH. intros a Ha.
      assert (Hin : In a (list_ascii_of_string cur ++ [c])%list).
      { clear - Ha. revert Ha. induction cur as [| x cur IHc]; simpl; [tauto |].
        intros [H | H]; [now left | right; now apply IHc]. }
      apply in_app_or in Hin. destruct Hin as [H | [<- | []]]; [now apply Hcur | exact Hc].
Qed.

Lemma split_ws_tokens (s : string) : Forall is_token (split_ws s).
Proof. apply split_ws_aux_tokens. intros c []. Qed.

(** X17. What a record of the manifest reader holds.  Its checksum has the
    kind [md5], which is in the enumerated set, and as value the first token
    of its line; its path is made of the dataset root and the second token.
    Both tokens are non-empty and free of whitespace, so a path with a space
    in it cannot come out of a manifest.  A relative second token is put
    under the root; a second token that starts with a slash replaces the
    root: the record then points outside the dataset. *)
Theorem X17_records_of_the_manifest (prefix : string) (lines : list string) :
  exists records,
    locate_paths_lines prefix lines = Ok records
    /\ forall r, In r records ->
         str_in (cs_kind (p_checksum r)) Checksum_kinds = true
         /\ exists line c p,
              In line lines /\ split_ws line = [c; p]
              /\ is_token c /\ is_token p
              /\ cs_value (p_checksum r) = c
              /\ (startswith "/" p = true -> p_filepath r = p)
              /\ (startswith "/" p = false ->
                  p_filepath r = prefix ++ p \/ p_filepath r = prefix ++ "/" ++ p).
Proof.
  exists (flat_map (records_of prefix) lines).
  split; [apply locate_paths_lines_records |].
  intros r Hr. apply in_flat_map in Hr. destruct Hr as [line [Hline Hr]].
  unfold records_of in Hr.
  destruct (split_ws line) as [| c [| p [| x t]]] eqn:E; try (now destruct Hr).
  destruct Hr as [<- | []]. cbn [p_checksum cs_kind cs_value p_filepath].
  split; [reflexivity |].
  exists line, c, p. split; [exact Hline |]. split; [exact E |].
  pose proof (split_ws_tokens line) as Ht. rewrite E in Ht.
  inversion Ht as [| ? ? Hc Ht']. inversion Ht' as [| ? ? Hp _]. subst.
  split; [exact Hc |]. split; [exact Hp |]. split; [reflexivity |].
  unfold join. split; intros ->; [reflexivity |].
  destruct (is_empty prefix || endswith_char "/" prefix); [now left | now right].
Qed.

(** ** Scores in decimal *)

Lemma digit_not_space (c : ascii) : is_digit c = true -> is_space c = false.
Proof.
  unfold is_digit, is_space. intros H. apply andb_prop in H. destruct H as [H1 H2].
  apply Nat.leb_le in H1, H2.
  apply orb_false_iff. split.
  - apply andb_false_iff. right. apply Nat.leb_gt. lia.
  - apply Nat.eqb_neq. lia.
Qed.

Lemma digit_not_LF (c : ascii) : is_digit c = true -> Ascii.eqb c LF = false.
Proof.
  intros H. apply Ascii.eqb_neq. intros ->. discriminate H.
Qed.

Lemma string_of_uint_digits (d : Decimal.uint) :
  all_digits (NilEmpty.string_of_uint d) = true.
Proof. induction d; simpl; auto. Qed.

Lemma of_nat_not_empty (n : nat) : of_nat n <> EmptyString.
Proof.
  unfold of_nat. intros H.
  assert (Hd : Nat.to_uint n = Decimal.Nil).
  { destruct (Nat.to_uint n); simpl in H; try discriminate H. reflexivity. }
  pose proof (DecimalNat.Unsigned.of_to n) as E. rewrite Hd in E.
  destruct n; [discriminate Hd | discriminate E].
Qed.

Lemma digits_val_of_uint (d : Decimal.uint) (acc : nat) :
  digits_val (Z.of_nat acc) (NilEmpty.string_of_uint d)
  = Some (Z.of_nat (Nat.of_uint_acc d acc)).
Proof.
  revert acc. induction d; intros acc; cbn [NilEmpty.string_of_uint Nat.of_uint_acc];
    [reflexivity | ..];
    cbn [digits_val]; (match goal with |- context [is_digit ?c] =>
                         change (is_digit c) with true end);
    cbv iota; rewrite <- IHd; f_equal; rewrite Nat.tail_mul_spec;
    unfold digit_val; cbn [nat_of_ascii]; simpl Z.of_nat; lia.
Qed.

Lemma lstrip_nonspace (c : ascii) (r : string) :
  is_space c = false -> lstrip (String c r) = String c r.
Proof. intros H. simpl. now rewrite H. Qed.

Lemma rstrip_all_space (ws : string) : all_space ws = true -> rstrip ws = EmptyString.
Proof.
  induction ws as [| c r IH]; [reflexivity |].
  simpl. intros H. apply andb_prop in H. destruct H as [Hc Hr].
  now rewrite (IH Hr), Hc.
Qed.

(** [rstrip] removes the whitespace after the last character that is
    none. *)
Lemma rstrip_after_nonspace (s : string) (c : ascii) (ws : string) :
  is_space c = false -> all_space ws = true ->
  rstrip (s ++ String c ws) = s ++ String c EmptyString.
Proof.
  intros Hc Hws. induction s as [| x s IH].
  - simpl. now rewrite (rstrip_all_space ws Hws), Hc.
  - cbn [append rstrip]. rewrite IH.
    replace (is_empty (s ++ String c "")) with false by (now destruct s).
    now rewrite andb_false_r.
Qed.

Lemma last_char (s : string) :
  s <> EmptyString -> exists s0 c, s = s0 ++ String c EmptyString.
Proof.
  induction s as [| x s IH]; [now intros [] |]. intros _.
  destruct s as [| y s'].
  - now exists EmptyString, x.
  - destruct IH as [s0 [c E]]; [discriminate |]. rewrite E.
    now exists (String x s0), c.
Qed.

Lemma all_digits_app (a b : string) :
  all_digits (a ++ b) = all_digits a && all_digits b.
Proof. induction a as [| x a IH]; simpl; [reflexivity | now rewrite IH, andb_assoc]. Qed.

(** A string that begins and ends with a digit, followed by whitespace,
    is stripped to the string. *)
Lemma strip_digits_ends (c1 : ascii) (s : string) (c2 : ascii) (ws : string) :
  is_digit c1 = true -> is_digit c2 = true -> all_space ws = true ->
  strip (String c1 (s ++ String c2 ws)) = String c1 (s ++ String c2 EmptyString).
Proof.
  intros H1 H2 Hws. unfold strip.
  rewrite lstrip_nonspace by now apply digit_not_space.
  change (String c1 (s ++ String c2 ws)) with (String c1 s ++ String c2 ws).
  now rewrite rstrip_after_nonspace by (auto using digit_not_space).
Qed.

Lemma strip_number (s ws : string) :
  s <> EmptyString -> all_digits s = true -> all_space ws = true ->
  strip (s ++ ws) = s.
Proof.
  intros Hne Hd Hws.
  destruct (last_char s Hne) as [s0 [c ->]].
  rewrite all_digits_app in Hd. apply andb_prop in Hd. destruct Hd as [Hd0 Hdc].
  simpl in Hdc. rewrite andb_true_r in Hdc.
  rewrite append_assoc. cbn [append].
  destruct s0 as [| x s0].
  - cbn [append]. unfold strip. rewrite lstrip_nonspace by now apply digit_not_space.
    change (String c ws) with (EmptyString ++ String c ws).
    now rewrite rstrip_after_nonspace by (auto using digit_not_space).
  - simpl in Hd0. apply andb_prop in Hd0. destruct Hd0 as [Hx _].
    cbn [append]. now apply strip_digits_ends.
Qed.

Lemma append_nil_r (s : string) : s ++ EmptyString = s.
Proof. induction s as [| c s IH]; simpl; [reflexivity | now rewrite IH]. Qed.

Lemma int_of_digits (s : string) :
  s <> EmptyString -> all_digits s = true ->
  int_of_str s = digits_val 0 s.
Proof.
  intros Hne Hd. unfold int_of_str.
  assert (Hs : strip s = s).
  { pose proof (strip_number s EmptyString Hne Hd eq_refl) as H.
    now rewrite append_nil_r in H. }
  rewrite Hs.
  destruct s as [| c r]; [now elim Hne |].
  simpl in Hd. apply andb_prop in Hd. destruct Hd as [Hc _].
  destruct c as [[|] [|] [|] [|] [|] [|] [|] [|]]; try discriminate Hc; reflexivity.
Qed.

(** [int(str(n))] is [n]: a natural number in decimal, with whitespace
    after it, parses to itself. *)
Lemma int_of_nat_string (n : nat) (ws : string) :
  all_space ws = true ->
  int_of_str (strip (of_nat n ++ ws)) = Some (Z.of_nat n).
Proof.
  intros Hws.
  rewrite strip_number;
    [| apply of_nat_not_empty | apply string_of_uint_digits | exact Hws].
  rewrite int_of_digits; [| apply of_nat_not_empty | apply string_of_uint_digits].
  unfold of_nat. change 0 with (Z.of_nat 0). rewrite digits_val_of_uint.
  change (Nat.of_uint_acc (Nat.to_uint n) 0) with (Nat.of_uint (Nat.to_uint n)).
  now rewrite DecimalNat.Unsigned.of_to.
Qed.

Lemma lacks_LF_digits (s : string) : all_digits s = true -> lacks LF s = true.
Proof.
  induction s as [| c r IH]; [reflexivity |].
  simpl. intros H. apply andb_prop in H. destruct H as [Hc Hr].
  now rewrite (digit_not_LF c Hc), (IH Hr).
Qed.

Lemma split_on_lacks (x : string) : lacks LF x = true -> split_on LF x = [x].
Proof.
  induction x as [| c r IH]; [reflexivity |].
  simpl. intros H. apply andb_prop in H. destruct H as [Hc Hr].
  apply negb_true_iff in Hc. now rewrite Hc, (IH Hr).
Qed.

Lemma split_on_line (x t : string) :
  lacks LF x = true -> split_on LF (x ++ String LF t) = x :: split_on LF t.
Proof.
  induction x as [| c r IH].
  - intros _. cbn [append split_on]. now rewrite Ascii.eqb_refl.
  - simpl. intros H. apply andb_prop in H. destruct H as [Hc Hr].
    apply negb_true_iff in Hc. now rewrite Hc, (IH Hr).
Qed.

(** Joining lines and splitting at the line feeds gives the lines back,
    if there is at least one. *)
Lemma split_on_concat (l : list string) :
  l <> [] -> Forall (fun x => lacks LF x = true) l ->
  split_on LF (String.concat nl l) = l.
Proof.
  induction l as [| x l IH]; [now intros [] |]. intros _ H.
  inversion H as [| ? ? Hx Hl]; subst.
  destruct l as [| y l'].
  - cbn [String.concat]. now apply split_on_lacks.
  - cbn [String.concat]. unfold nl at 1. cbn [append].
    rewrite split_on_line by exact Hx. f_equal. apply IH; [discriminate | exact Hl].
Qed.

Lemma map_int_of_nat (scores : list nat) :
  map_int (map of_nat scores) = Ok (map Z.of_nat scores).
Proof.
  induction scores as [| n l IH]; [reflexivity |].
  cbn [map map_int].
  pose proof (int_of_nat_string n EmptyString eq_refl) as H.
  rewrite append_nil_r in H.
  assert (Hs : strip (of_nat n) = of_nat n).
  { pose proof (strip_number (of_nat n) EmptyString (of_nat_not_empty n)
                  (string_of_uint_digits _) eq_refl) as E.
    now rewrite append_nil_r in E. }
  rewrite Hs in H. now rewrite H, IH.
Qed.

Lemma score_lines_digits_ends (scores : list nat) :
  scores <> [] ->
  exists c1 s c2,
    is_digit c1 = true /\ is_digit c2 = true
    /\ (score_lines scores = String c1 (s ++ String c2 EmptyString)
        \/ (score_lines scores = String c1 EmptyString /\ c1 = c2)).
Proof.
  intros Hne.
  assert (Hfirst : forall n, exists c r, of_nat n = String c r /\ is_digit c = true).
  { intros n. pose proof (of_nat_not_empty n) as H.
    pose proof (string_of_uint_digits (Nat.to_uint n)) as Hd. fold (of_nat n) in Hd.
    destruct (of_nat n) as [| c r]; [now elim H |].
    simpl in Hd. apply andb_prop in Hd. now exists c, r. }
  assert (Hlast : forall n, exists s0 c, of_nat n = s0 ++ String c EmptyString
                                         /\ is_digit c = true).
  { intros n. destruct (last_char _ (of_nat_not_empty n)) as [s0 [c E]].
    pose proof (string_of_uint_digits (Nat.to_uint n)) as Hd. fold (of_nat n) in Hd.
    rewrite E, all_digits_app in Hd. apply andb_prop in Hd. destruct Hd as [_ Hd].
    simpl in Hd. rewrite andb_true_r in Hd. now exists s0, c. }
  assert (Hend : forall l, l <> [] ->
                   exists s0 c, String.concat nl (map of_nat l) = s0 ++ String c EmptyString
                                /\ is_digit c = true).
  { induction l as [| n l IH]; [now intros [] |]. intros _.
    destruct l as [| m l'].
    - cbn [map String.concat]. apply Hlast.
    - destruct IH as [s0 [c [E Hc]]]; [discriminate |].
      cbn [map String.concat] in *. rewrite E.
      exists (of_nat n ++ nl ++ s0), c. split; [| exact Hc].
      now rewrite !append_assoc. }
  destruct (Hend scores Hne) as [s0 [c2 [E Hc2]]].
  unfold score_lines. rewrite E.
  destruct scores as [| n l]; [now elim Hne |].
  destruct (Hfirst n) as [c1 [r [En Hc1]]].
  assert (Hhead : exists r', String.concat nl (map of_nat (n :: l)) = String c1 r').
  { cbn [map]. destruct (map of_nat l) as [| y ys]; cbn [String.concat]; rewrite En.
    - now exists r.
    - now exists (r ++ nl ++ String.concat nl (y :: ys)). }
  destruct Hhead as [r' Hr']. rewrite E in Hr'.
  destruct s0 as [| x s0'].
  - cbn [append] in *. injection Hr' as -> _.
    exists c1, EmptyString, c1. split; [exact Hc1 |]. split; [exact Hc1 |].
    right. now split.
  - cbn [append] in *. injection Hr' as -> _.
    exists c1, s0', c2. split; [exact Hc1 |]. split; [exact Hc2 |]. now left.
Qed.

Lemma strip_score_lines (scores : list nat) (ws : string) :
  scores <> [] -> all_space ws = true ->
  strip (score_lines scores ++ ws) = score_lines scores.
Proof.
  intros Hne Hws.
  destruct (score_lines_digits_ends scores Hne)
    as [c1 [s [c2 [H1 [H2 [E | [E ->]]]]]]]; rewrite E.
  - cbn [append]. rewrite append_assoc. cbn [append].
    now apply strip_digits_ends.
  - cbn [append]. unfold strip. rewrite lstrip_nonspace by now apply digit_not_space.
    change (String c2 ws) with (EmptyString ++ String c2 ws).
    now rewrite rstrip_after_nonspace by (auto using digit_not_space).
Qed.

(** The scores a scorer prints in decimal, one on each line, are the
    scores the matcher reads, provided there is at least one. *)
Lemma parse_score_lines (scores : list nat) (ws : string) :
  scores <> [] -> all_space ws = true ->
  map_int (split_on LF (strip (score_lines scores ++ ws)))
  = Ok (map Z.of_nat scores).
Proof.
  intros Hne Hws. rewrite strip_score_lines by assumption.
  unfold score_lines. rewrite split_on_concat.
  - apply map_int_of_nat.
  - now destruct scores.
  - apply Forall_forall. intros x Hx. apply in_map_iff in Hx.
    destruct Hx as [n [<- _]]. apply lacks_LF_digits, string_of_uint_digits.
Qed.

(** The result of a pairwise request whose scorer, run on the two
    scratch files, prints a natural number. *)
Lemma pairwise_scored (env : Env) (probe gallery : mindtct) (w : World)
      (n : nat) (ws : string) :
  (forall p, write_fails env p = false) ->
  all_space ws = true ->
  fst (exec env (pair_cmd (scratch_dir w)) (pair_files probe gallery w))
  = Exited 0 (of_nat n ++ ws) ->
  fst (bozorth3_from_group env probe gallery w)
  = Ok {| b_probe := m_image probe; b_gallery := m_image gallery;
          b_score := Z.of_nat n |}.
Proof.
  intros Hw Hws Hexec. unfold bozorth3_from_group.
  rewrite (bind_ok _ _ _ _ _ (mkdtemp_creates w)).
  rewrite (bind_ok _ _ _ _ _ (write_file_ok env _ _ _ (Hw _))).
  rewrite (bind_ok _ _ _ _ _ (write_file_ok env _ _ _ (Hw _))).
  match goal with
  | |- fst (try_finally ?body (rmtree ?d) ?w1) = _ =>
      destruct (try_finally_rmtree_dirs body d w1) as [Hf _]
  end.
  - now left.
  - apply match_body_keeps_dirs. intros s.
    destruct (int_of_str (strip s)); [apply ret_keeps_dirs | apply raise_keeps_dirs].
  - rewrite Hf. unfold bind, check_output, bind, spawn.
    cbn [w_files set_tmp set_dirs set_files].
    change (exec env _ _)
      with (exec env (pair_cmd (scratch_dir w)) (pair_files probe gallery w)).
    destruct (exec env (pair_cmd (scratch_dir w)) (pair_files probe gallery w))
      as [pr fs'].
    cbn [fst] in Hexec. subst pr. cbn [fst snd Z.eqb ret].
    now rewrite (int_of_nat_string n ws Hws).
Qed.

(** X18. Printing and parsing scores is a round trip.  When the scorer of
    a one-to-many request, run on the scratch files of the request, prints
    natural numbers in decimal, one on each line, with or without whitespace
    after the last, and as many as there are gallery templates, the request
    returns exactly these numbers as scores, in order; a pairwise request
    returns the one number its scorer prints.  A one-to-many scorer that
    prints no number at all makes the request fail: [int('')] raises
    [ValueError]. *)
Theorem X18_printed_scores_are_the_scores_read
        (env : Env) (w : World) (probe : mindtct) (gallery : list mindtct)
        (ws : string) :
  (forall p, write_fails env p = false) ->
  all_space ws = true ->
  (forall scores,
      scores <> [] ->
      List.length scores = List.length gallery ->
      fst (exec env (one_to_many_cmd (scratch_dir w) (List.length gallery))
             (scratch_files probe gallery w))
      = Exited 0 (score_lines scores ++ ws) ->
      fst (bozorth3_from_one_to_many env probe (map PMindtct gallery) w)
      = Ok (map (result_of probe) (combine (map Z.of_nat scores) gallery)))
  /\ (forall g n,
        fst (exec env (pair_cmd (scratch_dir w)) (pair_files probe g w))
        = Exited 0 (of_nat n ++ ws) ->
        fst (bozorth3_from_group env probe g w)
        = Ok {| b_probe := m_image probe; b_gallery := m_image g;
                b_score := Z.of_nat n |})
  /\ (fst (exec env (one_to_many_cmd (scratch_dir w) (List.length gallery))
             (scratch_files probe gallery w))
      = Exited 0 ws ->
      fst (bozorth3_from_one_to_many env probe (map PMindtct gallery) w)
      = Raise (int_error EmptyString)).
Proof.
  intros Hw Hws.
  split; [| split].
  - intros scores Hne Hlen Hexec.
    apply (one_to_many_scored env probe gallery w (score_lines scores ++ ws));
      [exact Hw | exact Hexec | now apply parse_score_lines].
  - intros g n Hexec. now apply pairwise_scored with (ws := ws).
  - intros Hexec.
    rewrite (one_to_many_outcome env probe gallery w ws Hw Hexec).
    unfold strip.
    assert (Hl : lstrip ws = EmptyString).
    { clear - Hws. induction ws as [| c r IH]; [reflexivity |].
      simpl in *. apply andb_prop in Hws. destruct Hws as [Hc Hr].
      rewrite Hc. now apply IH. }
    rewrite Hl. reflexivity.
Qed.

Lemma X18_witness :
  fst (bozorth3_from_one_to_many (Demo.demo_env Demo.one_line_each) Demo.t0
         (map PMindtct [Demo.t1; Demo.t2]) Demo.world0)
  = Ok (map (result_of Demo.t0) (combine (map Z.of_nat [7; 7]%nat) [Demo.t1; Demo.t2])).
Proof.
  refine (proj1 (X18_printed_scores_are_the_scores_read
                   (Demo.demo_env Demo.one_line_each) Demo.world0 Demo.t0
                   [Demo.t1; Demo.t2] nl _ _) [7; 7]%nat _ _ _).
  - intros p. reflexivity.
  - reflexivity.
  - intros H. discriminate H.
  - reflexivity.
  - reflexivity.
Defined.

(** ** The whole matching stage *)

Lemma one_to_many_try_scored (env : Env) (cmd : list string) (probe : mindtct)
      (gallery : list mindtct) (w : World) (out : string) (scores : list Z) :
  fst (exec env cmd (w_files w)) = Exited 0 out ->
  map_int (split_on LF (strip out)) = Ok scores ->
  fst (one_to_many_try env cmd probe (map PMindtct gallery) w)
  = Ok (map (result_of probe) (combine scores gallery)).
Proof.
  intros Hexec Hparse. unfold one_to_many_try.
  pose proof (check_output_ok env cmd w out Hexec) as Hout.
  destruct (check_output env cmd w) as [r w3] eqn:E3.
  simpl in Hout. subst r. rewrite (bind_ok _ _ _ _ _ E3).
  now rewrite Hparse, zip_results_templates.
Qed.

(** The results for the scores of the pairs are the group of the probe. *)
Lemma results_of_scores (score_of : mindtct -> mindtct -> Z) (probe : mindtct)
      (gallery : list mindtct) :
  map (result_of probe) (combine (map (score_of probe) gallery) gallery)
  = group_of score_of gallery probe.
Proof.
  unfold group_of. induction gallery as [| g gs IH]; [reflexivity |].
  cbn [map combine]. now rewrite IH.
Qed.

(** The rows of the groups of the probes are the rows of the pairs. *)
Lemma table_rows_groups (score_of : mindtct -> mindtct -> Z)
      (probes gallery : list mindtct) :
  table_rows (map (group_of score_of gallery) probes)
  = pair_rows score_of probes gallery.
Proof.
  unfold table_rows, pair_rows, group_of.
  induction probes as [| p ps IH]; [reflexivity |].
  cbn [map List.concat flat_map]. rewrite IH. f_equal.
  rewrite map_map. reflexivity.
Qed.

Lemma pair_rows_count (score_of : mindtct -> mindtct -> Z)
      (probes gallery : list mindtct) :
  List.length (pair_rows score_of probes gallery)
  = (List.length probes * List.length gallery)%nat.
Proof.
  induction probes as [| p ps IH]; [reflexivity |].
  change (pair_rows score_of (p :: ps) gallery)
    with (map (fun g => (m_image p, m_image g, score_of p g)) gallery
          ++ pair_rows score_of ps gallery)%list.
  rewrite length_app, length_map. cbn [List.length].
  unfold row in *. rewrite IH. lia.
Qed.

Section MatchingStage.
Context (env : Env) (population gallery : list mindtct)
        (score_of : mindtct -> mindtct -> Z).
Hypothesis writes_succeed : forall p, write_fails env p = false.
Hypothesis gallery_sampled : incl gallery population.
Hypothesis ids_are_7bit : forall t, In t population -> eight_bit (m_image t) = false.
Hypothesis scores_fit :
  forall p g, In p population -> In g population -> fits_int64 (score_of p g) = true.
Hypothesis scorer_scores :
  forall d fs probe,
    In probe population ->
    holds_request d probe gallery fs ->
    exists out,
      fst (exec env (one_to_many_cmd d (List.length gallery)) fs) = Exited 0 out
      /\ map_int (split_on LF (strip out)) = Ok (map (score_of probe) gallery).

(** One request against the gallery returns the probe's group and leaves
    the store alone. *)
Lemma request_run (probe : mindtct) (w : World) :
  In probe population ->
  exists w',
    run_bozorth3 env None
      {| in_probe := probe; in_gallery := PList (map PMindtct gallery) |} w
    = (Ok (Many (group_of score_of gallery probe)), w')
    /\ w_db w' = w_db w /\ w_printed w' = w_printed w.
Proof.
  intros Hin.
  destruct (one_to_many_after_writes env probe gallery w writes_succeed)
    as [w2 [Hd [Hfs Heq]]].
  pose proof (scratch_files_hold probe gallery w) as Hhold.
  rewrite <- Hfs in Hhold.
  destruct (scorer_scores (scratch_dir w) (w_files w2) probe Hin Hhold)
    as [out [Hexec Hparse]].
  pose proof (bozorth3_from_one_to_many_keeps_store env probe
                (map PMindtct gallery) w) as [Hdb Hpr].
  assert (Hfst : fst (bozorth3_from_one_to_many env probe (map PMindtct gallery) w)
                 = Ok (group_of score_of gallery probe)).
  { rewrite Heq.
    match goal with
    | |- fst (try_finally ?body (rmtree ?d) w2) = _ =>
        destruct (try_finally_rmtree_dirs body d w2) as [Hf _]
    end.
    - rewrite Hd. now left.
    - apply one_to_many_try_keeps_dirs.
    - rewrite Hf, <- results_of_scores.
      now apply one_to_many_try_scored with (out := out). }
  destruct (bozorth3_from_one_to_many env probe (map PMindtct gallery) w)
    as [r w'] eqn:E.
  simpl in Hfst, Hdb, Hpr. subst r.
  exists w'. split; [| now split].
  unfold run_bozorth3, run. cbn [in_gallery in_probe].
  now rewrite (bind_ok _ _ _ _ _ E).
Qed.

(** The batch of the requests of all probes. *)
Lemma requests_run (probes : list mindtct) (w : World) :
  incl probes population ->
  exists w',
    pool_map (run_bozorth3 env None)
      (map (fun probe => {| in_probe := probe;
                            in_gallery := PList (map PMindtct gallery) |}) probes) w
    = (Ok (map Many (map (group_of score_of gallery) probes)), w')
    /\ w_db w' = w_db w /\ w_printed w' = w_printed w.
Proof.
  revert w. induction probes as [| probe ps IH]; intros w Hin.
  - exists w. now repeat split.
  - destruct (request_run probe w (Hin probe (or_introl eq_refl)))
      as [w1 [Hrun [Hdb Hpr]]].
    destruct (IH w1 (fun t Ht => Hin t (or_intror Ht))) as [w2 [Hruns [Hdb2 Hpr2]]].
    exists w2. split.
    + unfold pool_map in *. cbn [map mapM].
      rewrite (bind_ok _ _ _ _ _ Hrun), (bind_ok _ _ _ _ _ Hruns). reflexivity.
    + split; congruence.
Qed.

(** The store takes every group of the batch. *)
Lemma groups_accepted (probes : list mindtct) :
  incl probes population ->
  forallb accepted (map (group_of score_of gallery) probes) = true.
Proof.
  intros Hin. apply forallb_forall. intros group Hg.
  apply in_map_iff in Hg. destruct Hg as [probe [<- Hp]].
  unfold accepted, group_of. apply forallb_forall. intros b Hb.
  apply in_map_iff in Hb. destruct Hb as [g [<- Hg]].
  unfold storable. cbn [b_probe b_gallery b_score].
  rewrite (ids_are_7bit probe (Hin probe Hp)).
  rewrite (ids_are_7bit g (gallery_sampled g Hg)).
  now rewrite (scores_fit probe g (Hin probe Hp) (gallery_sampled g Hg)).
Qed.

End MatchingStage.

(** X10. The matching stage as a whole.  Suppose both sample sizes are
    within the population and the gallery is not empty, the scratch files can
    be written, the image ids are 7-bit strings, and the scorer, run on files
    that hold the payloads of a probe and of the gallery templates under
    their scratch names, prints the scores of the probe against each gallery
    template, which fit in 64 bits.  Then the stage completes; it stores one
    row for each pair of a probe and a gallery template, with the two image
    ids and the score of the pair, grouped by probe in the order of the
    probes and, within a group, in the order of the gallery: the number of
    rows added is the product of the two sample sizes.  Nothing else is
    added, no transaction is left open, and the results are printed in the
    same order. *)
Theorem X10_matching_stage_stores_one_row_per_pair
        (env : Env) (mindtcts : list mindtct) (perc_probe perc_gallery : float)
        (kp kg : Z) (score_of : mindtct -> mindtct -> Z) (w : World) :
  (forall c m, (0 < m)%nat -> (draw env c m < m)%nat) ->
  (forall p, write_fails env p = false) ->
  sample_size perc_probe (List.length mindtcts) = Ok kp ->
  0 <= kp <= Z.of_nat (List.length mindtcts) ->
  sample_size perc_gallery (List.length mindtcts) = Ok kg ->
  0 < kg <= Z.of_nat (List.length mindtcts) ->
  (forall t, In t mindtcts -> eight_bit (m_image t) = false) ->
  (forall p g, In p mindtcts -> In g mindtcts -> fits_int64 (score_of p g) = true) ->
  (forall d fs probe gallery,
      In probe mindtcts -> incl gallery mindtcts ->
      Z.of_nat (List.length gallery) = kg ->
      holds_request d probe gallery fs ->
      exists out,
        fst (exec env (one_to_many_cmd d (List.length gallery)) fs) = Exited 0 out
        /\ map_int (split_on LF (strip out)) = Ok (map (score_of probe) gallery)) ->
  db_has_table (w_db w) = true ->
  db_pending (w_db w) = [] ->
  exists probes gallery,
    Z.of_nat (List.length probes) = kp
    /\ Z.of_nat (List.length gallery) = kg
    /\ incl probes mindtcts
    /\ incl gallery mindtcts
    /\ fst (sample_and_match env mindtcts perc_probe perc_gallery w) = Ok tt
    /\ db_durable (w_db (snd (sample_and_match env mindtcts perc_probe perc_gallery w)))
       = (db_durable (w_db w) ++ pair_rows score_of probes gallery)%list
    /\ db_pending (w_db (snd (sample_and_match env mindtcts perc_probe perc_gallery w)))
       = []
    /\ w_printed (snd (sample_and_match env mindtcts perc_probe perc_gallery w))
       = (w_printed w ++ flat_map (group_of score_of gallery) probes)%list
    /\ Z.of_nat (List.length (pair_rows score_of probes gallery)) = kp * kg.
Proof.
  intros Hdraw Hw Hkp Hrp Hkg Hrg Hids Hfit Hscorer Ht Hp.
  destruct (sampler_selects env mindtcts perc_probe kp w Hdraw Hkp Hrp)
    as [probes [rest1 [w1 [Hrun1 [Hl1 [Hperm1 [Hdb1 [_ [_ Hpr1]]]]]]]]].
  assert (Hrg' : 0 <= kg <= Z.of_nat (List.length mindtcts)) by lia.
  destruct (sampler_selects env mindtcts perc_gallery kg w1 Hdraw Hkg Hrg')
    as [gallery [rest2 [w2 [Hrun2 [Hl2 [Hperm2 [Hdb2 [_ [_ Hpr2]]]]]]]]].
  assert (Hpin : incl probes mindtcts).
  { intros t Hin. apply (Permutation_in t Hperm1). apply in_or_app. now left. }
  assert (Hgin : incl gallery mindtcts).
  { intros t Hin. apply (Permutation_in t Hperm2). apply in_or_app. now left. }
  assert (Hsc : forall d fs probe,
             In probe mindtcts -> holds_request d probe gallery fs ->
             exists out,
               fst (exec env (one_to_many_cmd d (List.length gallery)) fs) = Exited 0 out
               /\ map_int (split_on LF (strip out)) = Ok (map (score_of probe) gallery)).
  { intros d fs probe Hin Hh. now apply Hscorer. }
  destruct (requests_run env mindtcts gallery score_of Hw Hsc probes w2 Hpin)
    as [w3 [Hrun3 [Hdb3 Hpr3]]].
  assert (Ht3 : db_has_table (w_db w3) = true) by congruence.
  assert (Hp3 : db_pending (w_db w3) = []) by congruence.
  destruct (store_groups_all (map (group_of score_of gallery) probes) w3 Ht3 Hp3
              (groups_accepted mindtcts gallery score_of Hgin Hids Hfit probes Hpin))
    as [w4 [Hrun4 [Hd4 [Hp4 Hpr4]]]].
  exists probes, gallery.
  split; [exact Hl1 |]. split; [exact Hl2 |].
  split; [exact Hpin |]. split; [exact Hgin |].
  assert (Hr : sample_and_match env mindtcts perc_probe perc_gallery w
               = (Ok tt, set_db (set_pending [] (w_db w4)) w4)).
  { unfold sample_and_match.
    rewrite (bind_ok _ _ _ _ _ Hrun1), (bind_ok _ _ _ _ _ Hrun2).
    rewrite (bind_ok _ _ _ _ _ Hrun3), (bind_ok _ _ _ _ _ Hrun4). reflexivity. }
  rewrite Hr.
  split; [reflexivity |].
  split; [cbn; rewrite Hd4, table_rows_groups; congruence |].
  split; [reflexivity |].
  split.
  { cbn. rewrite Hpr4, flat_map_concat_map. congruence. }
  rewrite pair_rows_count. lia.
Qed.

(** The scorer of [DemoScorer] prints the payload lengths of the gallery
    files it finds. *)
Lemma reading_scorer_scores (d : string) (fs : files) (probe : mindtct)
      (gallery : list mindtct) :
  gallery <> [] ->
  holds_request d probe gallery fs ->
  exists out,
    fst (exec DemoScorer.reading_env (one_to_many_cmd d (List.length gallery)) fs)
    = Exited 0 out
    /\ map_int (split_on LF (strip out))
       = Ok (map (DemoScorer.payload_length probe) gallery).
Proof.
  intros Hne [Hprobe Hgallery].
  assert (Hl : forall k (gs : list mindtct),
             (forall i g, nth_error gs i = Some g ->
                          lookup_file (gallery_file d (k + i)) fs = Some (m_xyt g)) ->
             DemoScorer.payload_lengths
               (map (fun i => join d ("gallery" ++ of_nat i ++ ".xyt"))
                    (seq k (List.length gs))) fs
             = Some (map (fun g => String.length (m_xyt g)) gs)).
  { intros k gs. revert k. induction gs as [| g gs IH]; intros k H; [reflexivity |].
    cbn [List.length seq map DemoScorer.payload_lengths].
    pose proof (H 0%nat g eq_refl) as H0. rewrite Nat.add_0_r in H0.
    unfold gallery_file in H0. rewrite H0.
    rewrite (IH (S k)); [reflexivity |].
    intros i g' Hi. replace (S k + i)%nat with (k + S i)%nat by lia.
    now apply H. }
  exists (score_lines (map (fun g => String.length (m_xyt g)) gallery) ++ nl).
  split.
  - unfold one_to_many_cmd. cbn [exec DemoScorer.reading_env DemoScorer.reading_exec].
    change (String.eqb "bozorth3" "bozorth3" && String.eqb "-p" "-p") with true.
    cbv iota. rewrite Hprobe, (Hl 0%nat gallery Hgallery). reflexivity.
  - rewrite parse_score_lines; [| now destruct gallery | reflexivity].
    unfold DemoScorer.payload_length. now rewrite map_map.
Qed.

Lemma X10_witness :
  fst (sample_and_match DemoScorer.reading_env (Demo.templates 4)
         Demo.half Demo.half Demo.world_db) = Ok tt
  /\ List.length
       (db_durable
          (w_db (snd (sample_and_match DemoScorer.reading_env
                        (Demo.templates 4) Demo.half Demo.half Demo.world_db))))
     = 4%nat.
Proof.
  destruct (X10_matching_stage_stores_one_row_per_pair
              DemoScorer.reading_env (Demo.templates 4)
              Demo.half Demo.half 2 2 DemoScorer.payload_length Demo.world_db)
    as [probes [gallery [_ [_ [_ [_ [Hok [Hd [_ [_ Hn]]]]]]]]]].
  - intros c m H. exact H.
  - intros p. reflexivity.
  - reflexivity.
  - simpl. lia.
  - reflexivity.
  - simpl. lia.
  - intros t Ht. cbn in Ht.
    repeat (destruct Ht as [<- | Ht]; [reflexivity |]). destruct Ht.
  - intros p g _ Hg. cbn in Hg.
    repeat (destruct Hg as [<- | Hg]; [reflexivity |]). destruct Hg.
  - intros d fs probe gallery _ _ Hlen Hh.
    apply reading_scorer_scores; [| exact Hh].
    intros ->. discriminate Hlen.
  - reflexivity.
  - reflexivity.
  - split; [exact Hok |]. rewrite Hd. cbn [Demo.world_db w_db set_db db_durable app].
    apply Nat2Z.inj. rewrite Hn. reflexivity.
Defined.


(** X19. What the scorer of a one-to-many request finds.  When the scratch
    files can be written, the scorer is run on files where [probe.xyt] holds
    the payload of the probe and [gallery<i>.xyt] the payload of the gallery
    template of rank [i], for every rank: no template overwrites another.
    The files outside the scratch names are as before.  The request's
    outcome is the scorer's on these files: the zipped results when it exits
    with 0 and prints integers, the error of [int] when it prints something
    else, [CalledProcessError] for another exit status. *)
Theorem X19_one_to_many_scorer_finds_every_payload
        (env : Env) (probe : mindtct) (gallery : list mindtct) (w : World) :
  (forall p, write_fails env p = false) ->
  let d := scratch_dir w in
  let cmd := one_to_many_cmd d (List.length gallery) in
  exists fs,
    lookup_file (join d "probe.xyt") fs = Some (m_xyt probe)
    /\ (forall i g, nth_error gallery i = Some g ->
                    lookup_file (gallery_file d i) fs = Some (m_xyt g))
    /\ (forall p, p <> join d "probe.xyt" ->
                  (forall i, p <> gallery_file d i) ->
                  lookup_file p fs = lookup_file p (w_files w))
    /\ fst (bozorth3_from_one_to_many env probe (map PMindtct gallery) w)
       = match exec env cmd fs with
         | (CannotExec, _) => Raise (OSError "No such file or directory")
         | (Exited code out, _) =>
             if code =? 0 then
               match map_int (split_on LF (strip out)) with
               | Ok scores => Ok (map (result_of probe) (combine scores gallery))
               | Raise e => Raise e
               end
             else Raise (CalledProcessError code cmd)
         end.
Proof.
  intros Hw d cmd.
  set (names := map (gallery_file d) (seq 0 (List.length gallery))).
  set (fs0 := store_file (join d "probe.xyt") (m_xyt probe) (w_files w)).
  exists (written names gallery fs0).
  assert (Hprobe_notin : ~ In (join d "probe.xyt") names).
  { unfold names. intros H. apply in_map_iff in H. destruct H as [i [H _]].
    symmetry in H. now apply gallery_file_not_probe in H. }
  split.
  { rewrite written_other by exact Hprobe_notin. apply lookup_store_same. }
  split.
  { intros i g Hg. apply (written_nth names gallery fs0 i).
    - apply gallery_files_NoDup.
    - unfold names. apply map_nth_error.
      rewrite nth_error_seq_lt; [reflexivity |].
      apply nth_error_Some. congruence.
    - exact Hg. }
  split.
  { intros p Hp Hg. rewrite written_other.
    - unfold fs0. now apply lookup_store_other.
    - unfold names. intros H. apply in_map_iff in H. destruct H as [i [H _]].
      now apply (Hg i). }
  unfold bozorth3_from_one_to_many.
  rewrite (bind_ok _ _ _ _ _ (mkdtemp_creates w)).
  rewrite (bind_ok _ _ _ _ _ (write_file_ok env _ _ _ (Hw _))).
  rewrite length_map.
  change (map (fun i => join (scratch_dir w) ("gallery" ++ of_nat i ++ ".xyt"))
              (seq 0 (List.length gallery))) with names.
  rewrite (bind_ok _ _ _ _ _ (write_galleries_written env names gallery _ Hw)).
  match goal with
  | |- fst (try_finally ?body (rmtree ?dd) ?w2) = _ =>
      destruct (try_finally_rmtree_dirs body dd w2) as [Hf _]
  end.
  - cbn. now left.
  - apply one_to_many_body_keeps_dirs.
  - rewrite Hf. unfold bind, check_output, bind, spawn.
    cbn [w_files set_files set_tmp set_dirs].
    fold d. fold fs0.
    change ("bozorth3" :: "-p" :: join d "probe.xyt" :: names) with cmd.
    destruct (exec env cmd (written names gallery fs0)) as [[| code out] fs'];
      [reflexivity |].
    cbn [fst snd]. destruct (code =? 0); [| reflexivity].
    cbn [ret]. destruct (map_int (split_on LF (strip out))) as [scores | e];
      [| reflexivity].
    now rewrite zip_results_templates.
Qed.

Lemma X19_witness :
  exists fs,
    lookup_file "/tmp/tmp0/probe.xyt" fs = Some "x0"
    /\ lookup_file "/tmp/tmp0/gallery0.xyt" fs = Some "x1"
    /\ lookup_file "/tmp/tmp0/gallery1.xyt" fs = Some "x2".
Proof.
  destruct (X19_one_to_many_scorer_finds_every_payload
              (Demo.demo_env Demo.one_line_each) Demo.t0 [Demo.t1; Demo.t2]
              Demo.world0 (fun p => eq_refl))
    as [fs [Hp [Hg _]]].
  exists fs. split; [exact Hp |].
  split; [exact (Hg 0%nat Demo.t1 eq_refl) | exact (Hg 1%nat Demo.t2 eq_refl)].
Defined.
(** ** Scratch directories over a whole run *)

Lemma bind_ok_inv {A B} (c : M A) (k : A -> M B) (w w' : World) (b : B) :
  bind c k w = (Ok b, w') -> exists a w1, c w = (Ok a, w1) /\ k a w1 = (Ok b, w').
Proof.
  unfold bind. destruct (c w) as [[a | e] w1]; [| discriminate].
  intros H. now exists a, w1.
Qed.

Lemma keeps_leaves_no_dir {A} (c : M A) : keeps_dirs c -> leaves_no_dir c.
Proof. intros H w d. now rewrite H. Qed.

Lemma leaves_returns_clean {A} (c : M A) : leaves_no_dir c -> returns_clean c.
Proof. intros H w a w' E d. specialize (H w d). now rewrite E in H. Qed.

Lemma keeps_returns_clean {A} (c : M A) : keeps_dirs c -> returns_clean c.
Proof. intros H. now apply leaves_returns_clean, keeps_leaves_no_dir. Qed.

Lemma bind_returns_clean {A B} (c : M A) (k : A -> M B) :
  returns_clean c -> (forall a, returns_clean (k a)) -> returns_clean (bind c k).
Proof.
  intros Hc Hk w b w' E d Hd.
  apply bind_ok_inv in E. destruct E as [a [w1 [E1 E2]]].
  apply (Hc w a w1 E1). now apply (Hk a w1 b w' E2).
Qed.

Lemma mapM_returns_clean {A B} (f : A -> M B) (l : list A) :
  (forall a, In a l -> returns_clean (f a)) -> returns_clean (mapM f l).
Proof.
  induction l as [| x r IH]; intros Hf; [apply keeps_returns_clean, ret_keeps_dirs |].
  simpl. apply bind_returns_clean; [apply Hf; now left |]. intros y.
  apply bind_returns_clean.
  - apply IH. intros a Ha. apply Hf. now right.
  - intros ys. apply keeps_returns_clean, ret_keeps_dirs.
Qed.

Lemma dirs_without_In (d x : string) (dirs : list string) :
  In x (dirs_without d dirs) -> In x dirs.
Proof. unfold dirs_without. intros H. now apply filter_In in H. Qed.

Lemma mindtct_from_image_leaves_no_dir (env : Env) (img : image) :
  leaves_no_dir (mindtct_from_image env img).
Proof.
  intros w x. unfold mindtct_from_image.
  rewrite (bind_ok _ _ _ _ _ (mkdtemp_creates w)).
  match goal with
  | |- In x (w_dirs (snd (try_finally ?body (rmtree ?d) ?w1))) -> _ =>
      destruct (try_finally_rmtree_dirs body d w1) as [_ Hd]
  end.
  - now left.
  - apply extractor_body_keeps_dirs.
  - rewrite Hd. cbn [w_dirs set_tmp set_dirs]. rewrite dirs_without_cons_same.
    apply dirs_without_In.
Qed.

(** A matcher that has got as far as its [try] block has its scratch
    directory removed when it is left. *)
Lemma scratch_removed {A} (body : M A) (w w2 w' : World) (r : result A) (x : string) :
  keeps_dirs body ->
  w_dirs w2 = scratch_dir w :: w_dirs w ->
  try_finally body (rmtree (scratch_dir w)) w2 = (r, w') ->
  In x (w_dirs w') -> In x (w_dirs w).
Proof.
  intros Hk Hd E.
  destruct (try_finally_rmtree_dirs body (scratch_dir w) w2) as [_ Hd'];
    [rewrite Hd; now left | exact Hk |].
  rewrite E in Hd'. cbn [snd] in Hd'.
  rewrite Hd', Hd, dirs_without_cons_same. apply dirs_without_In.
Qed.

(** A pairwise request that returns has written its scratch files, and
    its scratch directory is gone. *)
Lemma bozorth3_from_group_returns_clean (env : Env) (probe gallery : mindtct) :
  returns_clean (bozorth3_from_group env probe gallery).
Proof.
  intros w b w' E x. unfold bozorth3_from_group in E.
  rewrite (bind_ok _ _ _ _ _ (mkdtemp_creates w)) in E.
  apply bind_ok_inv in E. destruct E as [[] [w1 [E1 E]]].
  apply bind_ok_inv in E. destruct E as [[] [w2 [E2 E]]].
  pose proof (write_file_dirs env (join (scratch_dir w) "probe.xyt") (m_xyt probe)
                (set_tmp (S (w_tmp w)) (set_dirs (scratch_dir w :: w_dirs w) w)))
    as H1.
  rewrite E1 in H1. cbn [snd w_dirs set_tmp set_dirs] in H1.
  pose proof (write_file_dirs env (join (scratch_dir w) "gallery.xyt") (m_xyt gallery) w1)
    as H2.
  rewrite E2 in H2. cbn [snd] in H2.
  apply (scratch_removed _ w w2 w' _ x) with (3 := E); [| congruence].
  apply match_body_keeps_dirs. intros s.
  destruct (int_of_str (strip s)); [apply ret_keeps_dirs | apply raise_keeps_dirs].
Qed.

(** So has a one-to-many request that returns, whatever its gallery
    holds. *)
Lemma bozorth3_from_one_to_many_returns_clean
      (env : Env) (probe : mindtct) (galleryset : list pyval) :
  returns_clean (bozorth3_from_one_to_many env probe galleryset).
Proof.
  intros w b w' E x. unfold bozorth3_from_one_to_many in E.
  rewrite (bind_ok _ _ _ _ _ (mkdtemp_creates w)) in E.
  apply bind_ok_inv in E. destruct E as [[] [w1 [E1 E]]].
  apply bind_ok_inv in E. destruct E as [[] [w2 [E2 E]]].
  pose proof (write_file_dirs env (join (scratch_dir w) "probe.xyt") (m_xyt probe)
                (set_tmp (S (w_tmp w)) (set_dirs (scratch_dir w :: w_dirs w) w)))
    as H1.
  rewrite E1 in H1. cbn [snd w_dirs set_tmp set_dirs] in H1.
  match type of E2 with
  | write_galleries env ?fs ?gs w1 = _ =>
      pose proof (write_galleries_keeps_dirs env fs gs w1) as H2
  end.
  rewrite E2 in H2. cbn [snd] in H2.
  apply (scratch_removed _ w w2 w' _ x) with (3 := E); [| congruence].
  apply one_to_many_body_keeps_dirs.
Qed.

Lemma run_returns_clean (env : Env) (g : option pyval) (input : bozorth3_input) :
  returns_clean (run env g input).
Proof.
  unfold run. destruct (in_gallery input) as [| z | s | m | l | l].
  5: { apply bind_returns_clean; [apply bozorth3_from_one_to_many_returns_clean |].
       intros bs. apply keeps_returns_clean, ret_keeps_dirs. }
  4: { apply bind_returns_clean; [apply bozorth3_from_group_returns_clean |].
       intros b. apply keeps_returns_clean, ret_keeps_dirs. }
  all: destruct g; apply keeps_returns_clean, raise_keeps_dirs.
Qed.

Lemma sample_loop_keeps_dirs (env : Env) {A} (k : nat) (pool : list A) :
  keeps_dirs (sample_loop env pool k).
Proof.
  revert pool. induction k as [| k IH]; intros pool; [apply ret_keeps_dirs |].
  cbn [sample_loop]. apply bind_keeps_dirs; [intros w; reflexivity |].
  intros j. destruct (nth_error pool j); [| apply raise_keeps_dirs].
  apply bind_keeps_dirs; [apply IH |]. intros r. apply ret_keeps_dirs.
Qed.

Lemma sampler_keeps_dirs (env : Env) (mindtcts : list mindtct) (perc : float) :
  keeps_dirs (sampler env mindtcts perc).
Proof.
  unfold sampler. apply bind_keeps_dirs; [apply lift_keeps_dirs |].
  intros k. unfold random_sample.
  destruct ((0 <=? k) && (k <=? Z.of_nat (List.length mindtcts)));
    [apply sample_loop_keeps_dirs | apply raise_keeps_dirs].
Qed.

Lemma store_groups_keeps_dirs (l : list matched) : keeps_dirs (store_groups l).
Proof.
  induction l as [| [b | g] l IH];
    [apply ret_keeps_dirs | apply raise_keeps_dirs |].
  cbn [store_groups].
  apply bind_keeps_dirs.
  { intros w. unfold executemany_insert.
    destruct (db_has_table (w_db w)); [| reflexivity].
    now destruct (insert_rows (db_pending (w_db w)) (map sql_insert_values g)). }
  intros _. apply bind_keeps_dirs; [intros w; reflexivity |].
  intros _. apply bind_keeps_dirs; [intros w; reflexivity | intros _; exact IH].
Qed.

Lemma locate_paths_keeps_dirs (path prefix : string) :
  keeps_dirs (locate_paths path prefix).
Proof.
  unfold locate_paths. apply bind_keeps_dirs; [intros w; apply read_file_dirs |].
  intros c. destruct (locate_paths_lines prefix (file_lines c));
    [apply ret_keeps_dirs | apply raise_keeps_dirs].
Qed.

Lemma extraction_returns_clean (env : Env) (images : list image) :
  returns_clean (pool_map (mindtct_from_image env) images).
Proof.
  apply mapM_returns_clean. intros a _.
  apply leaves_returns_clean, mindtct_from_image_leaves_no_dir.
Qed.

Lemma matching_returns_clean (env : Env) (g : option pyval)
      (inputs : list bozorth3_input) :
  returns_clean (pool_map (run_bozorth3 env g) inputs).
Proof. apply mapM_returns_clean. intros a _. apply run_returns_clean. Qed.

Lemma sample_and_match_returns_clean (env : Env) (mindtcts : list mindtct)
      (perc_probe perc_gallery : float) :
  returns_clean (sample_and_match env mindtcts perc_probe perc_gallery).
Proof.
  unfold sample_and_match.
  apply bind_returns_clean;
    [apply keeps_returns_clean, sampler_keeps_dirs |]. intros probes.
  apply bind_returns_clean;
    [apply keeps_returns_clean, sampler_keeps_dirs |]. intros gallery.
  apply bind_returns_clean; [apply matching_returns_clean |]. intros groups.
  apply bind_returns_clean;
    [apply keeps_returns_clean, store_groups_keeps_dirs |]. intros _.
  apply keeps_returns_clean. now intros w.
Qed.

(** The script from line 253 on. *)
Lemma pipeline_returns_clean (env : Env) (dataprefix md5listpath : string)
      (perc_probe perc_gallery : float) :
  returns_clean
    (bind (locate_paths md5listpath dataprefix)
       (fun paths =>
          bind (pool_map (mindtct_from_image env) (locate_images paths))
            (fun mindtcts =>
               sample_and_match env mindtcts perc_probe perc_gallery))).
Proof.
  apply bind_returns_clean;
    [apply keeps_returns_clean, locate_paths_keeps_dirs |]. intros paths.
  apply bind_returns_clean; [apply extraction_returns_clean |]. intros mindtcts.
  apply sample_and_match_returns_clean.
Qed.

(** The script is [main] run on what line 251 returns, in the world it
    leaves; when line 251 fails, the script ends there, with the store
    connected and the table created. *)
Lemma script_main (env : Env) (remote : Remote) (prefix md5listpath : string)
      (perc_probe perc_gallery : float) (w : World) :
  script env remote prefix md5listpath perc_probe perc_gallery w
  = match prepare_dataset env remote None None prefix true w with
    | (Ok dataprefix, w1) => main env dataprefix md5listpath perc_probe perc_gallery w1
    | (Raise e, w1) => (Raise e, snd (create_table (snd (sqlite3_connect w1))))
    end.
Proof.
  unfold script, main.
  unfold bind at 1. unfold sqlite3_connect at 1.
  unfold bind at 1. unfold create_table at 1.
  unfold bind at 1. rewrite !prepare_dataset_skip.
  unfold path_exists. cbn [w_dirs w_files set_db].
  destruct (str_in prefix (w_dirs w)
            || match lookup_file prefix (w_files w) with
               | Some _ => true
               | None => false
               end); [reflexivity |].
  destruct (makedirs_os remote prefix (w_dirs w) (w_files w)) as [[what |] created];
    reflexivity.
Qed.

(** X20. A run that completes leaves no scratch directory behind.  When
    the extraction batch returns, every directory that exists afterwards
    existed before; so it is when the batch of match requests returns,
    pairwise or one-to-many; and when the whole script completes, every
    directory that exists afterwards existed before or was created by
    [os.makedirs(prefix)] at line 251.  (Of a run that fails nothing of the
    kind holds: a matcher whose scratch write fails leaves its directory, and
    the workers of a failed batch are not modelled.) *)
Theorem X20_run_leaves_no_directory_behind
        (env : Env) (remote : Remote) (prefix md5listpath : string)
        (perc_probe perc_gallery : float) :
  (forall images, returns_clean (pool_map (mindtct_from_image env) images))
  /\ (forall g inputs, returns_clean (pool_map (run_bozorth3 env g) inputs))
  /\ (forall w w',
        script env remote prefix md5listpath perc_probe perc_gallery w = (Ok tt, w') ->
        forall d, In d (w_dirs w') ->
                  In d (prefix_dirs remote prefix w) \/ In d (w_dirs w)).
Proof.
  split; [apply extraction_returns_clean |].
  split; [apply matching_returns_clean |].
  intros w w' E d Hd. unfold script in E.
  apply bind_ok_inv in E. destruct E as [[] [w1 [E1 E]]].
  apply bind_ok_inv in E. destruct E as [[] [w2 [E2 E]]].
  apply bind_ok_inv in E. destruct E as [dataprefix [w3 [E3 E]]].
  apply (pipeline_returns_clean env dataprefix md5listpath perc_probe perc_gallery
           w3 tt w' E) in Hd.
  injection E1 as <-. injection E2 as <-.
  rewrite prepare_dataset_skip in E3. unfold prefix_dirs.
  unfold path_exists in *. cbn [w_dirs w_files set_db] in E3.
  destruct (str_in prefix (w_dirs w)
            || match lookup_file prefix (w_files w) with
               | Some _ => true
               | None => false
               end).
  - injection E3 as _ <-. right. exact Hd.
  - destruct (makedirs_os remote prefix (w_dirs w) (w_files w)) as [[what |] created];
      [discriminate E3 |].
    injection E3 as _ <-. cbn [w_dirs set_dirs set_db] in Hd.
    apply in_app_or in Hd. cbn [snd]. tauto.
Qed.

Lemma X20_witness :
  fst (script (Demo.demo_env Demo.one_line_each) DemoRemote.remote "data" "md5.txt"
         Demo.half Demo.half Demo.world_manifest) = Ok tt
  /\ forall d,
       In d (w_dirs (snd (script (Demo.demo_env Demo.one_line_each) DemoRemote.remote
                            "data" "md5.txt" Demo.half Demo.half Demo.world_manifest))) ->
       In d ["data"] \/ In d ["/tmp"].
Proof.
  split; [vm_compute; reflexivity |].
  refine (proj2 (proj2 (X20_run_leaves_no_directory_behind
                          (Demo.demo_env Demo.one_line_each) DemoRemote.remote
                          "data" "md5.txt" Demo.half Demo.half))
            Demo.world_manifest _ _).
  vm_compute. reflexivity.
Defined.

(** X22. The whole script and the script from line 253 on.  When the
    prefix exists, the script is [main] for the dataset directory
    [<prefix>/NISTSpecialDatabase4GrayScaleImagesofFIGS]: line 251 changes
    nothing.  In general the script is [main] run after line 251, and ends
    with its [OSError] when [os.makedirs] fails.  For every prefix, and
    however the run ends, the committed rows afterwards are those from before
    with rows added at the end, and the table [bozorth3] exists. *)
Theorem X22_script_runs_main_after_line_251
        (env : Env) (remote : Remote) (prefix md5listpath : string)
        (perc_probe perc_gallery : float) (w : World) :
  let r := script env remote prefix md5listpath perc_probe perc_gallery w in
  (path_exists prefix w = true ->
   r = main env (join prefix dataset_name) md5listpath perc_probe perc_gallery w)
  /\ (forall dataprefix w1,
        prepare_dataset env remote None None prefix true w = (Ok dataprefix, w1) ->
        dataprefix = join prefix dataset_name
        /\ r = main env dataprefix md5listpath perc_probe perc_gallery w1)
  /\ (forall e w1,
        prepare_dataset env remote None None prefix true w = (Raise e, w1) ->
        fst r = Raise e /\ exists what, e = OSError what)
  /\ (exists added,
         db_durable (w_db (snd r)) = (db_durable (w_db w) ++ added)%list
         /\ db_has_table (w_db (snd r)) = true).
Proof.
  cbv zeta. rewrite script_main.
  split.
  { intros Hp. rewrite prepare_dataset_skip, Hp. reflexivity. }
  split.
  { intros dataprefix w1 E. rewrite E. split; [| reflexivity].
    rewrite prepare_dataset_skip in E.
    destruct (path_exists prefix w); [now injection E as <- _ |].
    destruct (makedirs_os remote prefix (w_dirs w) (w_files w)) as [[what |] created];
      [discriminate E | now injection E as <- _]. }
  split.
  { intros e w1 E. rewrite E. split; [reflexivity |].
    rewrite prepare_dataset_skip in E.
    destruct (path_exists prefix w); [discriminate E |].
    destruct (makedirs_os remote prefix (w_dirs w) (w_files w)) as [[what |] created];
      [| discriminate E].
    injection E as <- _. now exists what. }
  assert (Hdb : w_db (snd (prepare_dataset env remote None None prefix true w)) = w_db w).
  { rewrite prepare_dataset_skip.
    destruct (path_exists prefix w); [reflexivity |].
    now destruct (makedirs_os remote prefix (w_dirs w) (w_files w))
      as [[what |] created]. }
  destruct (prepare_dataset env remote None None prefix true w) as [[dataprefix | e] w1].
  - cbn [snd] in Hdb. rewrite <- Hdb.
    unfold main.
    unfold bind at 1. unfold sqlite3_connect at 1.
    unfold bind at 1. unfold create_table at 1.
    match goal with
    | |- context [bind (locate_paths ?p ?q) ?k ?w2] =>
        assert (H : extends_store (bind (locate_paths p q) k));
          [| destruct (H w2) as [added [Hd Ht]]; exists added ]
    end.
    + apply bind_extends_store; [apply keeps_extends, locate_paths_keeps_store |].
      intros paths.
      apply bind_extends_store.
      { apply keeps_extends. apply mapM_keeps_store.
        apply mindtct_from_image_keeps_store. }
      intros mindtcts. apply sample_and_match_extends.
    + split; [| apply Ht; reflexivity].
      rewrite Hd. cbn. now rewrite app_nil_r.
  - cbn [snd] in Hdb. exists []. cbn. rewrite Hdb, !app_nil_r.
    split; reflexivity.
Qed.

(** ** Identity of the templates *)

Lemma extractor_result_id (env : Env) (img : image) (w : World) (t : mindtct) :
  fst (mindtct_from_image env img w) = Ok t -> m_image t = img_id img.
Proof.
  unfold mindtct_from_image.
  rewrite (bind_ok _ _ _ _ _ (mkdtemp_creates w)).
  intros H. apply try_finally_ok in H. revert H. unfold bind.
  destruct (check_call env _ _) as [[[] | e] w1]; [| discriminate].
  destruct (read_file _ w1) as [[xyt | e] w2]; [| discriminate].
  cbn. now intros [= <-].
Qed.

(** X21. The extraction batch keeps identity, order and number: when it
    returns, it returns one template for each image, in the order of the
    images, and the template of an image carries the id of that image, that
    is the checksum value of its manifest record. *)
Theorem X21_extraction_batch_keeps_ids_in_order
        (env : Env) (images : list image) (w : World) (templates : list mindtct) :
  fst (pool_map (mindtct_from_image env) images w) = Ok templates ->
  map m_image templates = map img_id images
  /\ List.length templates = List.length images
  /\ (forall paths, images = locate_images paths ->
        map m_image templates
        = map (fun r => cs_value (p_checksum r)) (filter has_accepted_extension paths)).
Proof.
  intros H.
  assert (Hids : map m_image templates = map img_id images).
  { revert w templates H. unfold pool_map.
    induction images as [| img rest IH]; intros w templates H.
    - cbn in H. now injection H as <-.
    - cbn [mapM] in H. unfold bind at 1 in H.
      destruct (mindtct_from_image env img w) as [[t | e] w1] eqn:E;
        [| discriminate H].
      unfold bind at 1 in H.
      destruct (mapM (mindtct_from_image env) rest w1) as [[ts | e] w2] eqn:E2;
        [| discriminate H].
      cbn in H. injection H as <-. cbn [map]. f_equal.
      + apply (extractor_result_id env img w). now rewrite E.
      + apply (IH w1). now rewrite E2. }
  split; [exact Hids |]. split.
  - apply (f_equal (@List.length _)) in Hids. now rewrite !length_map in Hids.
  - intros paths ->. rewrite Hids, locate_images_filter_map, map_map. reflexivity.
Qed.

Lemma X21_witness :
  map m_image
      [ {| m_image := "0a1b"; m_xyt := "minutiae of /home/user/data/f0001_01.png" |};
        {| m_image := "2c3d"; m_xyt := "minutiae of /home/user/data/f0002_05.png" |} ]
  = map img_id (locate_images (flat_map (records_of "data") (file_lines Demo.manifest))).
Proof.
  refine (proj1 (X21_extraction_batch_keeps_ids_in_order
                   (Demo.demo_env Demo.one_line_each)
                   (locate_images (flat_map (records_of "data") (file_lines Demo.manifest)))
                   Demo.world_manifest _ _)).
  vm_compute. reflexivity.
Defined.
